(** * fagents-mcp: agent-scoped configuration, authentication and the
      audited gate_email read path

    A shallow embedding of [src/config.ts], [src/auth.ts] and the
    [gate_email] tool and [/mcp] route of [src/server.ts].

    Conventions of the embedding.
    - A JavaScript string is the [string] of its UTF-8 bytes.  Every
      literal the code compares against, searches for or inserts is pure
      ASCII, [Buffer.from(s)] is exactly that byte sequence, and a byte
      of a multi-byte character never equals an ASCII byte, so equality,
      emptiness, concatenation, [Buffer] length and the ASCII regular
      expressions of the code act on the bytes as they act on the text.
    - [T | undefined] and [T | null] are [option T].
    - A thrown [Error] is [Throw] of its message; [try]/[catch] is
      [try_catch].
    - Objects obtained from [JSON.parse] and [process.env] are finite
      maps from their own keys to strings, as their TypeScript types say;
      properties inherited from [Object.prototype] are not part of them.
      The code's [key in obj] and [obj[key]] do see those: the maps
      describe them for every name but the ones [inherited] lists, and a
      statement about all keys of the code is made for the other names.
    - The numbers [listMessages] computes with are exact rationals: no
      [NaN], no infinities, no rounding.
    - The awaited calls of [gate_email] (IMAP fetch, HTTP POST to the
      audit sink) are answered by oracles passed as arguments, and every
      completed call and console line is recorded, in order, in a trace. *)

From Stdlib Require Import ZArith Bool List String Ascii Lia DecimalString.
From Stdlib Require DecimalPos.
From Stdlib Require QArith Qminmax.
From stdpp Require Import base option gmap strings.
Import ListNotations.

Local Open Scope Z_scope.
Local Open Scope string_scope.

(** ** JavaScript values and builtins used by the code *)

Module Js.

(** The result of a call that may throw. *)
Inductive outcome (A : Type) : Type :=
| Ok (a : A)
| Throw (msg : string).
Arguments Ok {A} a.
Arguments Throw {A} msg.

Definition bindO {A B} (x : outcome A) (f : A -> outcome B) : outcome B :=
  match x with
  | Ok a => f a
  | Throw m => Throw m
  end.

(** Truthiness of a string: only the empty string is falsy. *)
Definition truthy (s : string) : bool := negb (s =? "").

(** Truthiness of [string | undefined]. *)
Definition truthyO (o : option string) : bool :=
  match o with
  | Some s => truthy s
  | None => false
  end.

(** [a ?? b] *)
Definition nullish {A} (a : option A) (b : A) : A :=
  match a with
  | Some x => x
  | None => b
  end.

(** [a || b] on [string | undefined] with a string default. *)
Definition orElse (a : option string) (b : string) : string :=
  match a with
  | Some x => if truthy x then x else b
  | None => b
  end.

(** A JavaScript number as [parseInt] produces it: [NaN] or an integer.
    Integers are kept exact; the code only compares them with 1 and
    65535, which rounding to a double does not change. *)
Inductive number : Type :=
| NaN
| Num (z : Z).

Definition isNaN (n : number) : bool :=
  match n with
  | NaN => true
  | Num _ => false
  end.

(** [n < k] and [n > k]; every comparison with [NaN] is false. *)
Definition num_lt (n : number) (k : Z) : bool :=
  match n with
  | NaN => false
  | Num z => (z <? k)%Z
  end.

Definition num_gt (n : number) (k : Z) : bool :=
  match n with
  | NaN => false
  | Num z => (k <? z)%Z
  end.

Definition is_byte (n : nat) (c : ascii) : bool := (nat_of_ascii c =? n)%nat.

(** Leading white space as [parseInt] trims it (StrWhiteSpaceChar): the
    ASCII characters TAB, LF, VT, FF, CR, SP, and in UTF-8 U+00A0,
    U+1680, U+2000..U+200A, U+2028, U+2029, U+202F, U+205F, U+3000 and
    U+FEFF. *)
Definition ascii_ws (c : ascii) : bool :=
  let n := nat_of_ascii c in
  ((9 <=? n) && (n <=? 13) || (n =? 32))%nat.

Fixpoint trimStart (s : string) : string :=
  match s with
  | String c r =>
      if ascii_ws c then trimStart r
      else
        match r with
        | String c2 r2 =>
            if is_byte 194 c && is_byte 160 c2 then trimStart r2
            else
              match r2 with
              | String c3 r3 =>
                  let n3 := nat_of_ascii c3 in
                  if is_byte 225 c && is_byte 154 c2 && is_byte 128 c3
                     || is_byte 226 c && is_byte 128 c2
                        && ((128 <=? n3) && (n3 <=? 138)
                            || (n3 =? 168) || (n3 =? 169) || (n3 =? 175))%nat
                     || is_byte 226 c && is_byte 129 c2 && is_byte 159 c3
                     || is_byte 227 c && is_byte 128 c2 && is_byte 128 c3
                     || is_byte 239 c && is_byte 187 c2 && is_byte 191 c3
                  then trimStart r3
                  else s
              | EmptyString => s
              end
        | EmptyString => s
        end
  | EmptyString => s
  end.

Definition digit (c : ascii) : option Z :=
  let n := nat_of_ascii c in
  if ((48 <=? n) && (n <=? 57))%nat then Some (Z.of_nat n - 48) else None.

(** The longest prefix of decimal digits, read as an integer; [None]
    when the string does not start with a digit. *)
Fixpoint digits (acc : option Z) (s : string) : option Z :=
  match s with
  | String c r =>
      match digit c with
      | Some d => digits (Some (10 * nullish acc 0 + d)) r
      | None => acc
      end
  | EmptyString => acc
  end.

(** [parseInt(s, 10)]: trim leading white space, read an optional sign,
    then the longest run of decimal digits; [NaN] when there is none. *)
Definition parseInt (s : string) : number :=
  let t := trimStart s in
  let '(sign, body) :=
    match t with
    | String "-" r => (-1, r)
    | String "+" r => (1, r)
    | _ => (1, t)
    end in
  match digits None body with
  | Some z => Num (sign * z)
  | None => NaN
  end.

(** Decimal rendering of an integer in a template literal. *)
Definition showZ (z : Z) : string := NilZero.string_of_int (Z.to_int z).

(** The string-named properties of [Object.prototype], which every
    object made by [JSON.parse] or by an object literal, and
    [process.env], inherit. *)
Definition Object_prototype_keys : list string :=
  ["constructor"; "__defineGetter__"; "__defineSetter__"; "hasOwnProperty";
   "__lookupGetter__"; "__lookupSetter__"; "isPrototypeOf";
   "propertyIsEnumerable"; "toString"; "valueOf"; "__proto__";
   "toLocaleString"].

(** [name] is found on every such object, whether or not the object has
    a property of its own by that name. *)
Definition inherited (name : string) : bool :=
  existsb (String.eqb name) Object_prototype_keys.

End Js.
Export Js.

(** ** src/types.ts *)

Module Types.

(** [interface AgentConfig { apiKey: string; [envKey: string]: string }]:
    the object's own properties are ["apiKey"] and the keys of
    [envKeys]. *)
Record AgentConfig : Type := {
  apiKey : string;
  envKeys : gmap string string
}.

(** [key in agent], for a [key] that is not [inherited]: the object has
    it as a property of its own. *)
Definition agent_has (key : string) (a : AgentConfig) : bool :=
  (key =? "apiKey") || bool_decide (is_Some (envKeys a !! key)).

(** [agent[key]] for a key the object has. *)
Definition agent_get (key : string) (a : AgentConfig) : option string :=
  if key =? "apiKey" then Some (apiKey a) else envKeys a !! key.

(** [interface AgentsFile { agents: Record<string, AgentConfig>;
    shared?: Record<string, string> }].  The agents are kept in the
    order [Object.entries] enumerates them, with distinct identifiers. *)
Record AgentsFile : Type := {
  agents : list (string * AgentConfig);
  shared : option (gmap string string)
}.

(** [config.agents[agentId]], for an [agentId] that is an own key of
    [agents] or is not [inherited]. *)
Fixpoint agent_lookup (agentId : string) (l : list (string * AgentConfig))
  : option AgentConfig :=
  match l with
  | [] => None
  | (id, a) :: r => if id =? agentId then Some a else agent_lookup agentId r
  end.

Record ServerConfig : Type := {
  srv_port : Z;
  srv_host : string;
  srv_apiKey : option string
}.

Record EmailConfig : Type := {
  smtp_host : string;
  smtp_port : number;
  smtp_from : string;
  smtp_user : option string;
  smtp_pass : option string
}.

Record ImapConfig : Type := {
  imap_host : string;
  imap_port : number;
  imap_user : string;
  imap_pass : string;
  imap_tls : bool
}.

Record AttachmentInfo : Type := {
  att_part : string;
  att_filename : string;
  att_contentType : string;
  att_size : option Z
}.

Record EmailFull : Type := {
  uid : Z;
  from : string;
  to : string;
  cc : option string;
  subject : string;
  date : string;
  flags : list string;
  messageId : option string;
  text : option string;
  html : option string;
  attachments : list AttachmentInfo
}.

End Types.
Export Types.

(** ** src/config.ts *)

Module Config.

(** What the functions of [config.ts] read: the cached [agentsConfig],
    [process.env], and the store of the [AsyncLocalStorage]. *)
Record World : Type := {
  agentsConfig : AgentsFile;
  processEnv : gmap string string;
  storage : option string
}.

(** The outcome of reading [agents.json]. *)
Inductive file_read : Type :=
| FileParsed (f : AgentsFile)
| FileAbsent
| FileError (msg : string).

Definition loadAgentsConfig (cached : option AgentsFile) (r : file_read)
  : outcome AgentsFile :=
  match cached with
  | Some c => Ok c
  | None =>
      match r with
      | FileParsed f => Ok f
      | FileAbsent => Ok {| agents := []; shared := Some ∅ |}
      | FileError m => Throw ("Failed to load agents.json: " +:+ m)
      end
  end.

Definition runWithAgent {T} (agentId : string) (fn : World -> T) (w : World) : T :=
  fn {| agentsConfig := agentsConfig w;
        processEnv := processEnv w;
        storage := Some agentId |}.

Definition getCurrentAgentId (w : World) : option string := storage w.

Definition hasAgents (w : World) : bool :=
  (0 <? length (agents (agentsConfig w)))%nat.

(** [keyBuf.length === storedBuf.length && timingSafeEqual(keyBuf, storedBuf)]:
    [timingSafeEqual] of two buffers of one length is equality of their
    bytes. *)
Definition timingSafeEqual (a b : string) : bool := a =? b.

Definition safe_equal (keyBuf storedBuf : string) : bool :=
  (String.length keyBuf =? String.length storedBuf)%nat
  && timingSafeEqual keyBuf storedBuf.

Fixpoint resolve_in (key : string) (l : list (string * AgentConfig))
  : option string :=
  match l with
  | [] => None
  | (agentId, agentConfig) :: r =>
      if safe_equal key (apiKey agentConfig) then Some agentId
      else resolve_in key r
  end.

Definition resolveAgentByApiKey (w : World) (key : string) : option string :=
  resolve_in key (agents (agentsConfig w)).

(** [config.shared && key in config.shared], then [config.shared[key]],
    for a [key] that is not [inherited]. *)
Definition shared_lookup (config : AgentsFile) (key : string) : option string :=
  match shared config with
  | Some sh => sh !! key
  | None => None
  end.

Definition getAgentEnv (w : World) (agentId key : string) : option string :=
  let config := agentsConfig w in
  match agent_lookup agentId (agents config) with
  | Some agent =>
      if agent_has key agent && negb (key =? "apiKey")
      then agent_get key agent
      else shared_lookup config key
  | None => shared_lookup config key
  end.

(** [process.env[key] || undefined], for a [key] that is set or is not
    [inherited]. *)
Definition env_lookup (w : World) (key : string) : option string :=
  match processEnv w !! key with
  | Some v => if truthy v then Some v else None
  | None => None
  end.

Definition getEnv (w : World) (key : string) : option string :=
  match getCurrentAgentId w with
  | Some agentId =>
      if truthy agentId then
        match getAgentEnv w agentId key with
        | Some val => Some val
        | None => env_lookup w key
        end
      else env_lookup w key
  | None => env_lookup w key
  end.

(** The message of the error [getRequiredEnv] throws. *)
Definition missing_config (w : World) (key : string) : string :=
  let ctx := match getCurrentAgentId w with
             | Some agentId =>
                 if truthy agentId then " (agent: " +:+ agentId +:+ ")" else ""
             | None => ""
             end in
  "Missing required config: " +:+ key +:+ ctx.

Definition getRequiredEnv (w : World) (key : string) : outcome string :=
  match getEnv w key with
  | Some val => if truthy val then Ok val else Throw (missing_config w key)
  | None => Throw (missing_config w key)
  end.

Definition getServerConfig (w : World) : outcome ServerConfig :=
  let portStr := nullish (getEnv w "MCP_PORT") "3000" in
  let port := parseInt portStr in
  if isNaN port || num_lt port 1 || num_gt port 65535 then
    Throw ("Invalid MCP_PORT: " +:+ portStr)
  else
    match port with
    | Num p =>
        Ok {| srv_port := p;
              srv_host := nullish (getEnv w "MCP_HOST") "127.0.0.1";
              srv_apiKey := getEnv w "MCP_API_KEY" |}
    | NaN => Throw ("Invalid MCP_PORT: " +:+ portStr)
    end.

Definition getEmailConfig (w : World) : outcome EmailConfig :=
  bindO (getRequiredEnv w "SMTP_HOST") (fun host =>
  let port := parseInt (nullish (getEnv w "SMTP_PORT") "587") in
  bindO (match getEnv w "SMTP_FROM" with
         | Some f => Ok f
         | None => getRequiredEnv w "SMTP_USER"
         end) (fun from =>
  Ok {| smtp_host := host;
        smtp_port := port;
        smtp_from := from;
        smtp_user := getEnv w "SMTP_USER";
        smtp_pass := getEnv w "SMTP_PASS" |})).

Definition getImapConfig (w : World) : outcome ImapConfig :=
  bindO (getRequiredEnv w "IMAP_HOST") (fun host =>
  let port := parseInt (nullish (getEnv w "IMAP_PORT") "993") in
  bindO (getRequiredEnv w "IMAP_USER") (fun user =>
  bindO (getRequiredEnv w "IMAP_PASS") (fun pass =>
  Ok {| imap_host := host;
        imap_port := port;
        imap_user := user;
        imap_pass := pass;
        imap_tls := negb (nullish (getEnv w "IMAP_TLS") "true" =? "false") |}))).

End Config.
Export Config.

(** ** src/auth.ts *)

Module Auth.

Definition AUTH_ERROR : string := "Unauthorized: Invalid or missing API key".

(** [req.headers["x-api-key"]]: absent, one string, or a list. *)
Inductive header_value : Type :=
| HUndefined
| HString (s : string)
| HArray (l : list string).

(** What the middleware does with the request: call [next()], with
    [req.agentId] as it leaves it, or answer 401 itself. *)
Inductive auth_step : Type :=
| Next (agentId : option string)
| Respond401 (code : Z) (message : string).

Definition reject : auth_step := Respond401 (-32001) AUTH_ERROR.

Definition authenticate (w : World) (providedKey : header_value)
  : outcome auth_step :=
  let multiAgent := hasAgents w in
  bindO (getServerConfig w) (fun config =>
  if negb multiAgent && negb (truthyO (srv_apiKey config)) then Ok (Next None)
  else
    match providedKey with
    | HString providedKey =>
        if multiAgent then
          match resolveAgentByApiKey w providedKey with
          | Some agentId =>
              if truthy agentId then Ok (Next (Some agentId)) else Ok reject
          | None => Ok reject
          end
        else
          let apiBuf := nullish (srv_apiKey config) "" in
          if negb (String.length providedKey =? String.length apiBuf)%nat
             || negb (timingSafeEqual providedKey apiBuf)
          then Ok reject
          else Ok (Next None)
    | _ => Ok reject
    end).

End Auth.
Export Auth.

(** ** src/server.ts *)

Module Server.

(** *** Values handed to [JSON.stringify] and to [fetch] *)

Inductive jsval : Type :=
| JNum (z : Z)
| JStr (s : string)
| JBool (b : bool).

(** An object literal, its properties in insertion order. *)
Definition jsobject : Type := list (string * jsval).

Record Request : Type := {
  req_url : string;
  req_method : string;
  req_headers : list (string * string);
  req_body : jsobject
}.

Record Response : Type := { status : Z }.

(** [Response.ok]: the status is in the range 200 to 299. *)
Definition ok (r : Response) : bool :=
  ((200 <=? status r) && (status r <=? 299))%Z.

(** *** Traced effects *)

Inductive event : Type :=
| Console (line : string)
| ImapGetMessage (config : ImapConfig) (mailbox : string) (uid : Z)
    (res : outcome EmailFull)
| Fetch (req : Request) (res : outcome Response).

(** A computation: the events it performed, in order, and how it ended. *)
Definition Eff (A : Type) : Type := list event * outcome A.

Definition ret {A} (a : A) : Eff A := ([], Ok a).

Definition bind {A B} (m : Eff A) (f : A -> Eff B) : Eff B :=
  match m with
  | (t, Ok a) => let '(t', r) := f a in ((t ++ t')%list, r)
  | (t, Throw e) => (t, Throw e)
  end.

Definition try_catch {A} (m : Eff A) (handler : string -> Eff A) : Eff A :=
  match m with
  | (t, Ok a) => (t, Ok a)
  | (t, Throw e) => let '(t', r) := handler e in ((t ++ t')%list, r)
  end.

Definition lift {A} (o : outcome A) : Eff A := ([], o).

Notation "'let*' x := m 'in' k" := (bind m (fun x => k))
  (at level 10, x name, m at level 100, k at level 200).
Notation "m >>> k" := (bind m (fun _ => k))
  (at level 90, right associativity).

(** [log(msg)]: one console line (the time stamp prefix is left out). *)
Definition log (msg : string) : Eff unit := ([Console msg], Ok tt).

Definition nl : string := String (ascii_of_nat 10) "".

(** [parts.join(sep)] *)
Fixpoint join (sep : string) (parts : list string) : string :=
  match parts with
  | [] => ""
  | [p] => p
  | p :: r => p +:+ sep +:+ join sep r
  end.

(** [lines.filter(Boolean)]: drops [null] and the empty string. *)
Fixpoint filterBoolean (lines : list (option string)) : list string :=
  match lines with
  | [] => []
  | Some l :: r => if truthy l then l :: filterBoolean r else filterBoolean r
  | None :: r => filterBoolean r
  end.

(** *** The regular expressions of [stripUntrusted] *)

Definition lower (c : ascii) : ascii :=
  let n := nat_of_ascii c in
  if ((65 <=? n) && (n <=? 90))%nat then ascii_of_nat (n + 32) else c.

(** The literal [p], written in lower case, matches at the start of [s]
    under the [i] flag: letters match in either case, every other
    character only itself. *)
Fixpoint starts_ci (p s : string) : bool :=
  match p with
  | EmptyString => true
  | String a p' =>
      match s with
      | String c s' => Ascii.eqb (lower c) a && starts_ci p' s'
      | EmptyString => false
      end
  end.

(** A pattern as the list of literals it can match, in the order the
    matcher tries them; the length of the match at the start of [s]. *)
Fixpoint match_at (alts : list string) (s : string) : option nat :=
  match alts with
  | [] => None
  | p :: r => if starts_ci p s then Some (String.length p) else match_at r s
  end.

Definition TAG_STRIPPED : string := "[TAG_STRIPPED]".

(** [s.replace(/.../gi, "[TAG_STRIPPED]")] for a pattern of non-empty
    literals: scan from the left; at a match emit the placeholder and
    resume after the match, otherwise copy one character.  [skip] counts
    the characters of the current match still to pass over. *)
Fixpoint replace_from (alts : list string) (skip : nat) (s : string) : string :=
  match s with
  | EmptyString => EmptyString
  | String c r =>
      match skip with
      | S k => replace_from alts k r
      | O =>
          match match_at alts s with
          | Some n => TAG_STRIPPED +:+ replace_from alts (Nat.pred n) r
          | None => String c (replace_from alts 0 r)
          end
      end
  end.

Definition replaceAll (alts : list string) (s : string) : string :=
  replace_from alts 0 s.

(** [/<\/?untrusted>/gi], [/\[\/untrusted\]/gi], [/\{\/untrusted\}/gi] *)
Definition re_angle : list string := ["</untrusted>"; "<untrusted>"].
Definition re_bracket : list string := ["[/untrusted]"].
Definition re_brace : list string := ["{/untrusted}"].

Definition stripUntrusted (s : string) : string :=
  replaceAll re_brace (replaceAll re_bracket (replaceAll re_angle s)).

(** [`<untrusted>\n${stripUntrusted(body)}\n</untrusted>`] *)
Definition wrapUntrusted (body : string) : string :=
  "<untrusted>" +:+ nl +:+ stripUntrusted body +:+ nl +:+ "</untrusted>".

(** *** The gate_email tool *)

Definition attachmentList (email : EmailFull) : string :=
  if (0 <? length (attachments email))%nat then
    join ", "
      (map (fun a =>
              att_filename a +:+ " (" +:+ att_contentType a +:+ ", "
              +:+ match att_size a with
                  | Some n => showZ n
                  | None => "?"
                  end +:+ "B)")
           (attachments email))
  else "(none)".

Definition logLines (uid : Z) (mb agentId : string) (email : EmailFull) : string :=
  join nl (filterBoolean
    [ Some ("[gate_email] uid=" +:+ showZ uid +:+ " mailbox=" +:+ mb
            +:+ " agent=" +:+ agentId);
      Some ("From: " +:+ from email);
      Some ("To: " +:+ to email);
      Some ("Subject: " +:+ subject email);
      Some ("Date: " +:+ date email);
      Some ("MessageId: " +:+ nullish (messageId email) "(none)");
      (if truthyO (cc email) then Some ("Cc: " +:+ nullish (cc email) "")
       else None);
      Some ("Attachments: " +:+ attachmentList email);
      Some "---";
      Some (match text email with
            | Some t => t
            | None => nullish (html email) "(no body)"
            end) ]).

Definition audit_request (commsUrl commsToken message : string) : Request :=
  {| req_url := commsUrl +:+ "/api/channels/email-log/messages";
     req_method := "POST";
     req_headers := [("Content-Type", "application/json");
                     ("Authorization", "Bearer " +:+ commsToken)];
     req_body := [("message", JStr message)] |}.

Section GateEmail.

(** The collaborators: [imap.getMessage] and the global [fetch]. *)
Variable getMessage : ImapConfig -> string -> Z -> outcome EmailFull.
Variable fetch : Request -> outcome Response.

Definition await_getMessage (c : ImapConfig) (mb : string) (u : Z)
  : Eff EmailFull :=
  let r := getMessage c mb u in ([ImapGetMessage c mb u r], r).

Definition await_fetch (req : Request) : Eff Response :=
  let r := fetch req in ([Fetch req r], r).

(** Lines 209 to 229: the delivery of the audit record; the value is
    [logged]. *)
Definition deliver_audit (commsUrl : string) (commsToken : option string)
    (message : string) : Eff bool :=
  if truthyO commsToken then
    try_catch
      (let* logResp :=
         await_fetch (audit_request commsUrl (nullish commsToken "") message) in
       let logged := ok logResp in
       if negb logged then
         log ("gate_email: failed to log to #email-log: "
              +:+ showZ (status logResp)) >>>
         ret logged
       else ret logged)
      (fun e => log ("gate_email: comms error: " +:+ e) >>> ret false)
  else
    log "gate_email: no COMMS_TOKEN configured, skipping #email-log" >>>
    ret false.

Definition responseData (email : EmailFull) (logged : bool)
    (read_body : option bool) : jsobject :=
  ([("uid", JNum (uid email));
    ("from", JStr (from email));
    ("date", JStr (date email));
    ("logged", JBool logged);
    ("email_log_channel", JStr "email-log")]
   ++ (if nullish read_body false then
         (match text email with
          | Some t => if truthy t then [("text", JStr (wrapUntrusted t))] else []
          | None => []
          end)
         ++ (match html email with
             | Some h => if truthy h then [("html", JStr (wrapUntrusted h))] else []
             | None => []
             end)
       else []))%list.

(** The handler of the tool; its value is the object whose JSON text is
    returned to the caller. *)
Definition gate_email (w : World) (uid : Z) (mailbox : option string)
    (read_body : option bool) : Eff jsobject :=
  let mb := orElse mailbox "INBOX" in
  log ("gate_email uid=" +:+ showZ uid +:+ " mailbox=" +:+ mb) >>>
  try_catch
    (let* imapConfig := lift (getImapConfig w) in
     let* email := await_getMessage imapConfig mb uid in
     let commsUrl := nullish (getEnv w "COMMS_URL") "http://127.0.0.1:9754" in
     let commsToken := getEnv w "COMMS_TOKEN" in
     let agentId := nullish (getCurrentAgentId w) "unknown" in
     let* logged :=
       deliver_audit commsUrl commsToken (logLines uid mb agentId email) in
     ret (responseData email logged read_body))
    (fun msg =>
       log ("gate_email error: " +:+ msg) >>>
       ret [("error", JStr msg)]).

End GateEmail.

(** *** The /mcp route *)

(** How a POST to /mcp ends: the 401 of [authenticate], the result of
    [transport.handleRequest], or the 500 of the route's [catch]. *)
Inductive http_result (R : Type) : Type :=
| Unauthorized (status : Z) (code : Z) (message : string)
| Handled (r : R)
| InternalError (status : Z) (code : Z) (message : string).
Arguments Unauthorized {R} status code message.
Arguments Handled {R} r.
Arguments InternalError {R} status code message.

(** [app.post("/mcp", authenticate, async (req, res) => ...)].  The
    request arrives outside every [runWithAgent] scope. *)
Definition post_mcp {R} (w : World) (providedKey : header_value)
    (handleRequest : World -> outcome R) : outcome (http_result R) :=
  bindO (authenticate w providedKey) (fun step =>
  match step with
  | Respond401 code message => Ok (Unauthorized 401 code message)
  | Next agentId =>
      let served :=
        if truthyO agentId
        then runWithAgent (nullish agentId "") handleRequest w
        else handleRequest w in
      match served with
      | Ok r => Ok (Handled r)
      | Throw _ => Ok (InternalError 500 (-32603) "Internal server error")
      end
  end).

End Server.
Export Server.

(** ** The resolution order of [getEnv], stated on its tiers *)

Module ConfigSpec.

(** The identity [getEnv] acts on: the store's [agentId] when it is a
    non-empty string. *)
Definition bound_identity (w : World) : option string :=
  match storage w with
  | Some agentId => if truthy agentId then Some agentId else None
  | None => None
  end.

(** The identity bound, if any, is not the name of a property every
    object inherits. *)
Definition plain_identity (w : World) : bool :=
  match storage w with
  | Some agentId => negb (inherited agentId)
  | None => true
  end.

(** The agent's own override for [key]: an entry of its record other
    than the credential [apiKey]. *)
Definition own_override (w : World) (agentId key : string) : option string :=
  if key =? "apiKey" then None
  else
    match agent_lookup agentId (agents (agentsConfig w)) with
    | Some a => envKeys a !! key
    | None => None
    end.

(** The process environment value, the empty string counting as absent. *)
Definition env_value (w : World) (key : string) : option string :=
  match processEnv w !! key with
  | Some "" => None
  | o => o
  end.

(** The first tier that is present. *)
Fixpoint first_present (tiers : list (option string)) : option string :=
  match tiers with
  | [] => None
  | Some v :: _ => Some v
  | None :: r => first_present r
  end.

(** The cascade with the shared defaults consulted whether or not an
    identity is bound. *)
Definition getEnv_all_tiers (w : World) (key : string) : option string :=
  first_present
    [ match storage w with
      | Some agentId => own_override w agentId key
      | None => None
      end;
      shared_lookup (agentsConfig w) key;
      env_value w key ].

(** The cascade under a bound identity; the environment alone without. *)
Definition getEnv_tiers (w : World) (key : string) : option string :=
  match bound_identity w with
  | Some agentId =>
      first_present
        [ own_override w agentId key;
          shared_lookup (agentsConfig w) key;
          env_value w key ]
  | None => env_value w key
  end.

(** A port an accessor may hand out: an integer from 1 to 65535. *)
Definition valid_port (n : number) : Prop :=
  match n with
  | Num p => (1 <= p <= 65535)%Z
  | NaN => False
  end.

(** Worlds used as concrete inputs. *)

(** The credential file of [config.test.ts]. *)
Definition coo_dev : AgentsFile :=
  {| agents :=
       [ ("coo", {| apiKey := "key-coo-123";
                    envKeys := {[ "SMTP_FROM" := "coo@biz.com" ]} |});
         ("dev", {| apiKey := "key-dev-456"; envKeys := ∅ |}) ];
     shared :=
       Some (<["SMTP_HOST" := "smtp.biz.com"]>
             (<["SMTP_PORT" := "587"]>
              (<["SMTP_USER" := "shared@biz.com"]>
               (<["SMTP_PASS" := "secret"]>
                (<["IMAP_HOST" := "imap.biz.com"]>
                 (<["IMAP_PORT" := "993"]>
                  (<["IMAP_USER" := "shared@biz.com"]>
                   (<["IMAP_PASS" := "secret"]> ∅)))))))) |}.

(** No [agents.json]: what [loadAgentsConfig] caches on ENOENT. *)
Definition no_agents : AgentsFile := {| agents := []; shared := Some ∅ |}.

(** A process environment with mail settings whose ports are not ports. *)
Definition bad_ports_env : gmap string string :=
  <["SMTP_HOST" := "smtp.biz.com"]>
  (<["SMTP_USER" := "ops@biz.com"]>
   (<["SMTP_PORT" := "0"]>
    (<["IMAP_HOST" := "imap.biz.com"]>
     (<["IMAP_USER" := "ops@biz.com"]>
      (<["IMAP_PASS" := "secret"]>
       (<["IMAP_PORT" := "imaps"]>
        (<["MCP_PORT" := "0"]> ∅))))))).

(** A credential file whose shared block has an entry named [apiKey]. *)
Definition shared_apiKey_file : AgentsFile :=
  {| agents := [ ("coo", {| apiKey := "key-coo-123"; envKeys := ∅ |}) ];
     shared := Some {[ "apiKey" := "shared-secret" ]} |}.

Definition world (f : AgentsFile) (env : gmap string string)
    (ctx : option string) : World :=
  {| agentsConfig := f; processEnv := env; storage := ctx |}.

(** The configuration [getImapConfig] returns, if it returns. *)
Definition getImapConfig_value (w : World) : option ImapConfig :=
  match getImapConfig w with
  | Ok c => Some c
  | Throw _ => None
  end.

(** Agent [dev] of [coo_dev] with IMAP_TLS set in the environment. *)
Definition imap_world (tls : string) : World :=
  world coo_dev {[ "IMAP_TLS" := tls ]} (Some "dev").

End ConfigSpec.
Export ConfigSpec.

(** ** The decision of [authenticate], stated on its cases *)

Module AuthSpec.

(** The static server key, when one is set (a non-empty MCP_API_KEY). *)
Definition static_key (config : ServerConfig) : option string :=
  match srv_apiKey config with
  | Some "" => None
  | o => o
  end.

(** The decision: open when neither agents nor a static key are
    configured; otherwise the key header must be one string; in
    multi-agent mode it must resolve to an agent, whose identifier is
    attached to the request; in single-key mode it must equal the static
    key. *)
Definition auth_decision (multiAgent : bool) (static : option string)
    (resolve : string -> option string) (providedKey : header_value)
  : auth_step :=
  match multiAgent, static with
  | false, None => Next None
  | _, _ =>
      match providedKey with
      | HString k =>
          if multiAgent then
            match resolve k with
            | Some agentId => Next (Some agentId)
            | None => reject
            end
          else if bool_decide (static = Some k) then Next None else reject
      | _ => reject
      end
  end.

(** The world in which the rest of the call runs once [agentId] is the
    ambient identity. *)
Definition bind_identity (agentId : string) (w : World) : World :=
  {| agentsConfig := agentsConfig w;
     processEnv := processEnv w;
     storage := Some agentId |}.

Definition serve {R} (handleRequest : World -> outcome R) (w : World)
  : http_result R :=
  match handleRequest w with
  | Ok r => Handled r
  | Throw _ => InternalError 500 (-32603) "Internal server error"
  end.

(** What the route does with a decision. *)
Definition route_decision {R} (step : auth_step)
    (handleRequest : World -> outcome R) (w : World) : http_result R :=
  match step with
  | Respond401 code message => Unauthorized 401 code message
  | Next (Some agentId) => serve handleRequest (bind_identity agentId w)
  | Next None => serve handleRequest w
  end.

(** Every configured agent identifier is a non-empty string. *)
Definition agent_ids_nonempty (f : AgentsFile) : Prop :=
  Forall (fun p : string * AgentConfig => fst p <> "") (agents f).

(** A credential file whose one agent has the empty identifier. *)
Definition empty_id_file : AgentsFile :=
  {| agents := [ ("", {| apiKey := "key-123"; envKeys := ∅ |}) ];
     shared := None |}.

End AuthSpec.
Export AuthSpec.

(** ** What the caller of gate_email observes *)

Module GateSpec.

Definition keys (d : jsobject) : list string := map fst d.

(** [d[key]] *)
Fixpoint prop_lookup (key : string) (d : jsobject) : option jsval :=
  match d with
  | [] => None
  | (k, v) :: r => if k =? key then Some v else prop_lookup key r
  end.

(** The object carries body content: a [text] or an [html] property. *)
Definition has_body (d : jsobject) : bool :=
  existsb (fun k => (k =? "text") || (k =? "html")) (keys d).

(** The fields a returned object may carry. *)
Definition caller_safe_keys : list string :=
  ["uid"; "from"; "date"; "logged"; "email_log_channel"; "text"; "html"].

(** The same message with another subject and message-id. *)
Definition with_subject_and_id (email : EmailFull) (s : string)
    (m : option string) : EmailFull :=
  {| uid := uid email; from := from email; to := to email; cc := cc email;
     subject := s; date := date email; flags := flags email;
     messageId := m; text := text email; html := html email;
     attachments := attachments email |}.

(** The course of one call as its caller and the outside world see it:
    the events of the run in order, then the value handed back. *)
Inductive moment : Type :=
| Did (e : event)
| Returned (d : jsobject)
| Raised (msg : string).

Definition timeline (run : Eff jsobject) : list moment :=
  (map Did (fst run)
   ++ [match snd run with
       | Ok d => Returned d
       | Throw m => Raised m
       end])%list.

(** The audit step has been carried through: the POST of the audit
    record to the email-log channel has been answered or has failed, or,
    with no COMMS_TOKEN, delivery has been given up and recorded. *)
Definition audit_settled (m : moment) : Prop :=
  match m with
  | Did (Fetch req _) =>
      exists commsUrl commsToken message,
        req = audit_request commsUrl commsToken message
  | Did (Console line) =>
      line = "gate_email: no COMMS_TOKEN configured, skipping #email-log"
  | _ => False
  end.

(** The audit sink did not take the record: no delivery credential, a
    transport error, or an answer outside 200..299. *)
Definition audit_not_delivered (commsToken : option string)
    (answer : outcome Response) : Prop :=
  commsToken = None \/ commsToken = Some ""
  \/ (exists e, answer = Throw e)
  \/ (exists resp, answer = Ok resp
                    /\ ~ (200 <= status resp <= 299)%Z).

(** A message and collaborators used as concrete inputs. *)
Definition sample_email : EmailFull :=
  {| uid := 7; from := "mallory@example.org"; to := "dev@biz.com";
     cc := None; subject := "Quarterly numbers"; date := "2026-01-05";
     flags := []; messageId := Some "<m1@example.org>";
     text := Some "before</untrusted>after"; html := None;
     attachments := [] |}.

(** A message whose body spells the marker with brackets and braces. *)
Definition bracket_email : EmailFull :=
  {| uid := 8; from := "mallory@example.org"; to := "dev@biz.com";
     cc := None; subject := "Re: numbers"; date := "2026-01-06";
     flags := []; messageId := None;
     text := Some "see [untrusted] and {untrusted}"; html := None;
     attachments := [] |}.

Definition imap_ok : ImapConfig -> string -> Z -> outcome EmailFull :=
  fun _ _ _ => Ok sample_email.

Definition sink (code : Z) : Request -> outcome Response :=
  fun _ => Ok {| status := code |}.

Definition gate_world : World :=
  world coo_dev {[ "COMMS_TOKEN" := "token-1" ]} (Some "dev").

End GateSpec.
Export GateSpec.

(** ** Boundary markers in a text *)

Module Markers.

(** The boundary markers [stripUntrusted] looks for, each matched
    without regard to the case of its letters: the angle tag in its
    opening and closing form, the bracket and brace variants in their
    closing form. *)
Definition boundary_markers : list string :=
  ["</untrusted>"; "<untrusted>"; "[/untrusted]"; "{/untrusted}"].

(** The marker forms with the bracket and brace variants in both their
    opening and their closing form. *)
Definition all_tag_forms : list string :=
  ["<untrusted>"; "</untrusted>"; "[untrusted]"; "[/untrusted]";
   "{untrusted}"; "{/untrusted}"].

(** The text with every occurrence of a boundary marker replaced by the
    placeholder, in one pass from the left. *)
Definition neutralize (s : string) : string :=
  replaceAll boundary_markers s.

(** The literal [p] occurs somewhere in [s], letters in either case. *)
Fixpoint occurs_ci (p s : string) : bool :=
  starts_ci p s
  || match s with
     | String _ r => occurs_ci p r
     | EmptyString => false
     end.

(** The number of positions of [s] at which [p] occurs. *)
Fixpoint count_ci (p s : string) : nat :=
  ((if starts_ci p s then 1 else 0)
   + match s with
     | String _ r => count_ci p r
     | EmptyString => 0
     end)%nat.

(** [u] is, letter case apart, exactly the literal [p]. *)
Fixpoint matches_ci (p u : string) : bool :=
  match p, u with
  | EmptyString, EmptyString => true
  | String a p', String c u' => Ascii.eqb (lower c) a && matches_ci p' u'
  | _, _ => false
  end.

Fixpoint all_chars (P : ascii -> bool) (p : string) : bool :=
  match p with
  | EmptyString => true
  | String a p' => P a && all_chars P p'
  end.

(** No literal of the pattern starts with the character [a]. *)
Definition heads_avoid (alts : list string) (a : ascii) : bool :=
  forallb (fun x => match x with
                    | String h _ => negb (Ascii.eqb h a)
                    | EmptyString => false
                    end) alts.

(** The literal does not contain the character [c]. *)
Definition free_of (c : ascii) (p : string) : bool :=
  all_chars (fun a => negb (Ascii.eqb a c)) p.

Definition open_bracket : ascii := "["%char.
Definition newline : ascii := ascii_of_nat 10.

End Markers.
Export Markers.

(** ** The cache of [loadAgentsConfig] over successive calls *)

Module ConfigRuns.

(** One call of [loadAgentsConfig]: the module variable [agentsConfig]
    after the call, and what the call returns or throws.  A thrown error
    leaves the variable as it was. *)
Definition loadAgentsConfig_call (cached : option AgentsFile) (r : file_read)
  : option AgentsFile * outcome AgentsFile :=
  match loadAgentsConfig cached r with
  | Ok c => (Some c, Ok c)
  | Throw m => (cached, Throw m)
  end.

(** Successive calls, each finding the file in the state given. *)
Fixpoint loadAgentsConfig_calls (cached : option AgentsFile)
    (reads : list file_read) : list (outcome AgentsFile) :=
  match reads with
  | [] => []
  | r :: rest =>
      let '(cached', res) := loadAgentsConfig_call cached r in
      res :: loadAgentsConfig_calls cached' rest
  end.

(** The text [getRequiredEnv] appends for the current identity. *)
Definition agent_suffix (w : World) : string :=
  match getCurrentAgentId w with
  | Some agentId =>
      if truthy agentId then " (agent: " +:+ agentId +:+ ")" else ""
  | None => ""
  end.

(** The first character of the text, if any, is not a decimal digit. *)
Definition no_leading_digit (t : string) : Prop :=
  match t with
  | String c _ => digit c = None
  | EmptyString => True
  end.

(** [coo_dev] with an override added to the record of agent [dev]. *)
Definition coo_dev_edited : AgentsFile :=
  {| agents :=
       [ ("coo", {| apiKey := "key-coo-123";
                    envKeys := {[ "SMTP_FROM" := "coo@biz.com" ]} |});
         ("dev", {| apiKey := "key-dev-789";
                    envKeys := {[ "SMTP_FROM" := "dev@biz.com" ]} |}) ];
     shared := shared coo_dev |}.

(** A file whose agent [ops] overrides SMTP_HOST with the empty string. *)
Definition blank_override_file : AgentsFile :=
  {| agents := [ ("ops", {| apiKey := "key-ops-1";
                            envKeys := {[ "SMTP_HOST" := "" ]} |}) ];
     shared := Some {[ "SMTP_HOST" := "smtp.biz.com" ]} |}.

End ConfigRuns.
Export ConfigRuns.

(** ** Variations of a message *)

Module GateRuns.

(** The same message with another HTML part. *)
Definition with_html (email : EmailFull) (h : option string) : EmailFull :=
  {| uid := uid email; from := from email; to := to email; cc := cc email;
     subject := subject email; date := date email; flags := flags email;
     messageId := messageId email; text := text email; html := h;
     attachments := attachments email |}.

(** The event is an HTTP request. *)
Definition is_fetch (e : event) : bool :=
  match e with
  | Fetch _ _ => true
  | _ => false
  end.

End GateRuns.
Export GateRuns.

(** ** src/email.ts *)

Module Email.

(** The two characters [ehloDomain] looks for. *)
Definition gt : ascii := ">"%char.
Definition at_sign : ascii := "@"%char.

(** The options [createTransport] hands to nodemailer. *)
Record TransportOptions : Type := {
  opt_name : option string;
  opt_host : string;
  opt_port : number;
  opt_secure : bool;
  opt_auth : option (string * string);
  opt_rejectUnauthorized : bool
}.

(** The longest run of characters other than [>] at the start of [s]. *)
Fixpoint until_gt (s : string) : string :=
  match s with
  | String c r => if Ascii.eqb c ">" then "" else String c (until_gt r)
  | EmptyString => ""
  end.

(** [config.from.match(/@([^>]+)/)], its first group: at the leftmost
    [@] that is followed by a character other than [>], everything up to
    the next [>] or the end. *)
Fixpoint ehloDomain (from : string) : option string :=
  match from with
  | String c r =>
      if Ascii.eqb c "@" then
        match r with
        | String c2 _ =>
            if Ascii.eqb c2 ">" then ehloDomain r else Some (until_gt r)
        | EmptyString => None
        end
      else ehloDomain r
  | EmptyString => None
  end.

Definition createTransport (config : EmailConfig) : TransportOptions :=
  {| opt_name := ehloDomain (smtp_from config);
     opt_host := smtp_host config;
     opt_port := smtp_port config;
     opt_secure := false;
     opt_auth :=
       if truthyO (smtp_user config) && truthyO (smtp_pass config)
       then Some (nullish (smtp_user config) "", nullish (smtp_pass config) "")
       else None;
     opt_rejectUnauthorized := true |}.

End Email.
Export Email.

(** ** src/imap.ts *)

Module Imap.










Section Range.

Import QArith Qminmax.
Local Open Scope Z_scope.

(** Lines 61 to 67 of [listMessages]: the sequence range that is
    fetched, or [None] when the empty list is returned without a fetch.
    [total] is [status.messages ?? 0], the message count the server
    reports; [limit] and [offset] are the caller's numbers, which need
    not be integers. *)
Definition listMessages_range (total : Z) (limit offset : Q)
  : option (Q * Q) :=
  if (total =? 0)%Z then None
  else
    let end_ := Qmax 1 (inject_Z total - offset)%Q in
    let start := Qmax 1 (end_ - limit + 1)%Q in
    if negb (Qle_bool 1 end_) then None else Some (start, end_).

End Range.


Record SearchCriteria : Type := {
  sc_from : option string;
  sc_to : option string;
  sc_subject : option string;
  sc_since : option string;
  sc_before : option string;
  sc_unseen : option bool;
  sc_text : option string
}.

Inductive query_value : Type :=
| QStr (s : string)
| QBool (b : bool).

(** The query object built from the criteria, its keys in the order they
    are assigned. *)
Definition search_query (criteria : SearchCriteria)
  : list (string * query_value) :=
  let field (key : string) (v : option string) :=
    if truthyO v then [(key, QStr (nullish v ""))] else [] in
  (field "from" (sc_from criteria)
   ++ field "to" (sc_to criteria)
   ++ field "subject" (sc_subject criteria)
   ++ field "since" (sc_since criteria)
   ++ field "before" (sc_before criteria)
   ++ (if nullish (sc_unseen criteria) false then [("seen", QBool false)]
       else [])
   ++ field "body" (sc_text criteria))%list.


Record Mailbox : Type := {
  mb_path : string;
  mb_name : string;
  mb_specialUse : option string
}.

Definition backslash : string := String (ascii_of_nat 92) "".

Definition is_special_sent (mb : Mailbox) : bool :=
  match mb_specialUse mb with
  | Some u => u =? backslash +:+ "Sent"
  | None => false
  end.

(** [/^sent$/i.test(mb.name)] *)
Definition named_sent (mb : Mailbox) : bool := matches_ci "sent" (mb_name mb).

(** The mailbox [appendToSent] picks. *)
Definition sentBox (mailboxes : list Mailbox) : option Mailbox :=
  match List.find is_special_sent mailboxes with
  | Some mb => Some mb
  | None => List.find named_sent mailboxes
  end.

(** [appendToSent] inside the session: [mailboxes] is what [client.list]
    reports and [append] what [client.append] does. *)
Definition appendToSent (mailboxes : list Mailbox)
    (append : string -> string -> list string -> outcome unit)
    (rawMessage : string) : outcome (option string) :=
  match sentBox mailboxes with
  | None => Ok None
  | Some mb =>
      bindO (append (mb_path mb) rawMessage [backslash +:+ "Seen"])
            (fun _ => Ok (Some (mb_path mb)))
  end.

End Imap.
Export Imap.

(** ** The read_email and send_email tools of src/server.ts *)

Module Tools.

(** What a tool serializes into its reply: the result, or an object with
    the error message. *)
Inductive reply (A : Type) : Type :=
| Result (a : A)
| Failed (msg : string).
Arguments Result {A} a.
Arguments Failed {A} msg.

Definition read_email
    (getMessage : ImapConfig -> string -> Z -> outcome EmailFull)
    (w : World) (uid : Z) (mailbox : option string) : Eff (reply EmailFull) :=
  let mb := orElse mailbox "INBOX" in
  bind (log ("read_email uid=" +:+ showZ uid +:+ " mailbox=" +:+ mb)) (fun _ =>
  try_catch
    (bind (lift (getImapConfig w)) (fun config =>
     bind (await_getMessage getMessage config mb uid) (fun result =>
     ret (Result result))))
    (fun msg =>
       bind (log ("read_email error: " +:+ msg)) (fun _ => ret (Failed msg)))).

Record EmailAttachment : Type := {
  ea_filename : string;
  ea_content : string;
  ea_contentType : option string
}.

Record EmailMessage : Type := {
  em_to : string;
  em_cc : option string;
  em_bcc : option string;
  em_subject : string;
  em_body : string;
  em_html : option string;
  em_attachments : option (list EmailAttachment)
}.

Record EmailSendResult : Type := {
  sr_messageId : string;
  sr_accepted : list string;
  sr_rejected : list string
}.

(** The completed calls and console lines of send_email. *)
Inductive mail_event : Type :=
| MailConsole (line : string)
| SendEmail (config : EmailConfig) (message : EmailMessage)
    (res : outcome EmailSendResult)
| BuildRawMessage (config : EmailConfig) (message : EmailMessage)
    (res : outcome string)
| AppendToSent (config : ImapConfig) (raw : string)
    (res : outcome (option string)).

Definition Mail (A : Type) : Type := list mail_event * outcome A.

Definition mret {A} (a : A) : Mail A := ([], Ok a).

Definition mbind {A B} (m : Mail A) (f : A -> Mail B) : Mail B :=
  match m with
  | (t, Ok a) => let '(t', r) := f a in ((t ++ t')%list, r)
  | (t, Throw e) => (t, Throw e)
  end.

Definition mcatch {A} (m : Mail A) (handler : string -> Mail A) : Mail A :=
  match m with
  | (t, Ok a) => (t, Ok a)
  | (t, Throw e) => let '(t', r) := handler e in ((t ++ t')%list, r)
  end.

Definition mlog (msg : string) : Mail unit := ([MailConsole msg], Ok tt).

Definition dquote : string := String (ascii_of_nat 34) "".

Section SendEmailTool.

(** The collaborators: [sendEmail] and [buildRawMessage] of email.ts and
    [appendToSent] of imap.ts. *)
Variable sendEmail : EmailConfig -> EmailMessage -> outcome EmailSendResult.
Variable buildRawMessage : EmailConfig -> EmailMessage -> outcome string.
Variable appendToSent : ImapConfig -> string -> outcome (option string).

(** Lines 44 to 52: saving to the Sent folder. *)
Definition save_to_sent (w : World) (config : EmailConfig)
    (params : EmailMessage) : Mail unit :=
  mcatch
    (mbind ([], getImapConfig w) (fun imapConfig =>
     mbind (let r := buildRawMessage config params in
            ([BuildRawMessage config params r], r)) (fun raw =>
     mbind (let r := appendToSent imapConfig raw in
            ([AppendToSent imapConfig raw r], r)) (fun sentFolder =>
     if truthyO sentFolder
     then mlog ("send_email saved to " +:+ nullish sentFolder "")
     else mret tt))))
    (fun e => mlog ("send_email: failed to save to Sent: " +:+ e)).

Definition send_email (w : World) (params : EmailMessage)
  : Mail (reply EmailSendResult) :=
  mbind (mlog ("send_email to=" +:+ em_to params +:+ " subject=" +:+ dquote
               +:+ em_subject params +:+ dquote)) (fun _ =>
  mcatch
    (mbind ([], getEmailConfig w) (fun config =>
     mbind (let r := sendEmail config params in
            ([SendEmail config params r], r)) (fun result =>
     mbind (save_to_sent w config params) (fun _ =>
     mret (Result result)))))
    (fun msg =>
       mbind (mlog ("send_email error: " +:+ msg)) (fun _ =>
       mret (Failed msg)))).

End SendEmailTool.

End Tools.
Export Tools.

(** ** Inputs for the tools *)

Module ToolRuns.

Definition sample_message : EmailMessage :=
  {| em_to := "ann@example.org"; em_cc := None; em_bcc := None;
     em_subject := "Report"; em_body := "See attachment.";
     em_html := None; em_attachments := None |}.

Definition sample_result : EmailSendResult :=
  {| sr_messageId := "<sent-1@biz.com>";
     sr_accepted := ["ann@example.org"]; sr_rejected := [] |}.

(** The event is a call that sends or stores mail. *)
Definition is_send (e : mail_event) : bool :=
  match e with
  | SendEmail _ _ _ => true
  | _ => false
  end.

End ToolRuns.
Export ToolRuns.

(** * Properties *)

(** ** Configuration *)

Section ConfigFacts.

Implicit Types (w : World) (key agentId : string).

Lemma truthy_true s : truthy s = true <-> s <> "".
Proof.
  unfold truthy. rewrite negb_true_iff. split.
  - intros H ->. discriminate.
  - intros H. apply String.eqb_neq. exact H.
Qed.

Lemma env_lookup_value w key : env_lookup w key = env_value w key.
Proof.
  unfold env_lookup, env_value.
  destruct (processEnv w !! key) as [v|]; [|reflexivity].
  destruct v; reflexivity.
Qed.

(** *** The cases of [config.test.ts], replayed on the embedding *)

Example test_hasAgents :
  hasAgents (world coo_dev ∅ None) = true
  /\ loadAgentsConfig None FileAbsent = Ok no_agents
  /\ hasAgents (world no_agents ∅ None) = false.
Proof. repeat split. Qed.

Example test_resolveAgentByApiKey :
  let w := world coo_dev ∅ None in
  resolveAgentByApiKey w "key-coo-123" = Some "coo"
  /\ resolveAgentByApiKey w "key-dev-456" = Some "dev"
  /\ resolveAgentByApiKey w "wrong-key" = None.
Proof. repeat split. Qed.

Example test_getAgentEnv :
  let w := world coo_dev ∅ None in
  getAgentEnv w "coo" "SMTP_FROM" = Some "coo@biz.com"
  /\ getAgentEnv w "dev" "SMTP_HOST" = Some "smtp.biz.com"
  /\ getAgentEnv w "coo" "apiKey" = None
  /\ getAgentEnv w "coo" "NONEXISTENT" = None.
Proof. vm_compute. repeat split. Qed.

Example test_getEnv :
  runWithAgent "coo" (fun w => getEnv w "SMTP_FROM") (world coo_dev ∅ None)
  = Some "coo@biz.com"
  /\ runWithAgent "dev" (fun w => getEnv w "SMTP_HOST") (world coo_dev ∅ None)
     = Some "smtp.biz.com"
  /\ getEnv (world no_agents {[ "SMTP_HOST" := "env-host.com" ]} None)
       "SMTP_HOST" = Some "env-host.com"
  /\ getRequiredEnv (world no_agents ∅ None) "NONEXISTENT"
     = Throw "Missing required config: NONEXISTENT".
Proof. vm_compute. repeat split. Qed.

Example test_getServerConfig :
  getServerConfig (world no_agents ∅ None)
  = Ok {| srv_port := 3000; srv_host := "127.0.0.1"; srv_apiKey := None |}
  /\ getServerConfig (world no_agents {[ "MCP_PORT" := "8080" ]} None)
     = Ok {| srv_port := 8080; srv_host := "127.0.0.1"; srv_apiKey := None |}.
Proof. vm_compute. repeat split. Qed.

Example test_getEmailConfig :
  runWithAgent "coo" getEmailConfig (world coo_dev ∅ None)
  = Ok {| smtp_host := "smtp.biz.com"; smtp_port := Num 587;
          smtp_from := "coo@biz.com"; smtp_user := Some "shared@biz.com";
          smtp_pass := Some "secret" |}
  /\ runWithAgent "dev" getEmailConfig (world coo_dev ∅ None)
     = Ok {| smtp_host := "smtp.biz.com"; smtp_port := Num 587;
             smtp_from := "shared@biz.com"; smtp_user := Some "shared@biz.com";
             smtp_pass := Some "secret" |}.
Proof. vm_compute. repeat split. Qed.

(** *** Resolution *)

(** The agent branch of [getAgentEnv] never yields the agent's own
    credential: asked for ["apiKey"], the lookup goes to the shared
    block. *)
Lemma getAgentEnv_apiKey_is_shared w agentId :
  getAgentEnv w agentId "apiKey" = shared_lookup (agentsConfig w) "apiKey".
Proof.
  unfold getAgentEnv.
  destruct (agent_lookup agentId (agents (agentsConfig w))); reflexivity.
Qed.

Lemma getAgentEnv_other_key w agentId key :
  key <> "apiKey" ->
  getAgentEnv w agentId key =
  first_present [own_override w agentId key; shared_lookup (agentsConfig w) key].
Proof.
  intros Hk. apply String.eqb_neq in Hk.
  unfold getAgentEnv, own_override, agent_has, agent_get. rewrite Hk. simpl.
  destruct (agent_lookup agentId (agents (agentsConfig w))) as [a|].
  - destruct (envKeys a !! key) as [v|] eqn:E.
    + rewrite bool_decide_eq_true_2 by eauto. reflexivity.
    + rewrite bool_decide_eq_false_2 by (intros [? ?]; congruence).
      simpl. destruct (shared_lookup (agentsConfig w) key); reflexivity.
  - destruct (shared_lookup (agentsConfig w) key); reflexivity.
Qed.

Lemma getAgentEnv_tiers w agentId key :
  getAgentEnv w agentId key =
  first_present [own_override w agentId key; shared_lookup (agentsConfig w) key].
Proof.
  destruct (String.eqb_spec key "apiKey") as [->|Hk].
  - rewrite getAgentEnv_apiKey_is_shared. unfold own_override. simpl.
    destruct (shared_lookup (agentsConfig w) "apiKey"); reflexivity.
  - apply getAgentEnv_other_key. exact Hk.
Qed.

(** C1, evaluated on the code: with a shared block that has an entry
    named [apiKey], the override lookup for ["apiKey"] is not absent; it
    returns that entry. *)
Theorem getAgentEnv_apiKey_reaches_shared :
  getAgentEnv (world shared_apiKey_file ∅ None) "coo" "apiKey"
  = Some "shared-secret".
Proof. vm_compute. reflexivity. Qed.

(** C6 as claimed fails: with no identity bound the shared default is
    not consulted, so a key present only in the shared block resolves to
    absent, where the full cascade yields the shared value. *)
Lemma getEnv_all_tiers_fails_unbound :
  let w := world coo_dev ∅ None in
  getEnv w "SMTP_HOST" = None
  /\ getEnv_all_tiers w "SMTP_HOST" = Some "smtp.biz.com"
  /\ getEnv w "SMTP_HOST" <> getEnv_all_tiers w "SMTP_HOST".
Proof. vm_compute. repeat split; congruence. Qed.

(** C6, amended: for a key other than "apiKey", where neither the key
    nor the bound identity is the name of a property inherited from
    [Object.prototype] (for those names [key in agent], [agent[key]],
    [config.agents[agentId]] and [process.env[key]] find the inherited
    member, not a tier), under a bound, non-empty identity [getEnv key]
    is the agent's own override for [key] if set, else the shared
    default if set, else the process environment value (an empty string
    counting as absent), else absent; with no identity bound it is the
    process environment value alone, else absent. *)
Theorem getEnv_resolution w key :
  key <> "apiKey" ->
  inherited key = false ->
  plain_identity w = true ->
  getEnv w key = getEnv_tiers w key.
Proof.
  intros Hkey _ _.
  unfold getEnv, getEnv_tiers, bound_identity, getCurrentAgentId.
  rewrite env_lookup_value.
  destruct (storage w) as [agentId|]; [|reflexivity].
  destruct (truthy agentId); [|reflexivity].
  rewrite (getAgentEnv_other_key w agentId key Hkey). simpl.
  destruct (own_override w agentId key); [reflexivity|].
  destruct (shared_lookup (agentsConfig w) key); [reflexivity|].
  destruct (env_value w key); reflexivity.
Qed.

Lemma getEnv_resolution_witness :
  getEnv (world coo_dev {[ "SMTP_HOST" := "env-host.com" ]} (Some "dev"))
    "SMTP_HOST"
  = getEnv_tiers (world coo_dev {[ "SMTP_HOST" := "env-host.com" ]} (Some "dev"))
      "SMTP_HOST".
Proof.
  apply (getEnv_resolution
           (world coo_dev {[ "SMTP_HOST" := "env-host.com" ]} (Some "dev"))
           "SMTP_HOST").
  - discriminate.
  - reflexivity.
  - reflexivity.
Defined.

(** The four tiers on one key, one after the other. *)
Example getEnv_tiers_cases :
  getEnv (world coo_dev {[ "SMTP_FROM" := "env@biz.com" ]} (Some "coo"))
    "SMTP_FROM" = Some "coo@biz.com"
  /\ getEnv (world coo_dev {[ "SMTP_HOST" := "env-host.com" ]} (Some "dev"))
       "SMTP_HOST" = Some "smtp.biz.com"
  /\ getEnv (world coo_dev {[ "MCP_HOST" := "0.0.0.0" ]} (Some "dev"))
       "MCP_HOST" = Some "0.0.0.0"
  /\ getEnv (world coo_dev {[ "MCP_HOST" := "" ]} (Some "dev")) "MCP_HOST"
     = None
  /\ getEnv (world coo_dev {[ "SMTP_HOST" := "env-host.com" ]} None)
       "SMTP_HOST" = Some "env-host.com".
Proof. vm_compute. repeat split. Qed.

(** [getServerConfig] does validate: a configuration it returns has its
    port between 1 and 65535. *)
Lemma getServerConfig_port_range w c :
  getServerConfig w = Ok c -> (1 <= srv_port c <= 65535)%Z.
Proof.
  unfold getServerConfig.
  destruct (parseInt (nullish (getEnv w "MCP_PORT") "3000")) as [|p]; simpl.
  - discriminate.
  - destruct (p <? 1)%Z eqn:E1; simpl; [discriminate|].
    destruct (65535 <? p)%Z eqn:E2; simpl; [discriminate|].
    intros [= <-]. simpl. lia.
Qed.

(** C4, evaluated on the code: [getEmailConfig] and [getImapConfig] hand
    out whatever [parseInt] gives, without a range check: SMTP_PORT "0"
    yields port 0 and IMAP_PORT "imaps" yields NaN, where
    [getServerConfig] rejects MCP_PORT "0". *)
Theorem mail_ports_not_validated :
  let w := {| agentsConfig := no_agents; processEnv := bad_ports_env;
              storage := None |} in
  (exists c, getEmailConfig w = Ok c /\ smtp_port c = Num 0
             /\ ~ valid_port (smtp_port c))
  /\ (exists c, getImapConfig w = Ok c /\ imap_port c = NaN
                /\ ~ valid_port (imap_port c))
  /\ getServerConfig w = Throw "Invalid MCP_PORT: 0".
Proof.
  split; [|split].
  - eexists. split; [vm_compute; reflexivity|]. simpl. split; [reflexivity|lia].
  - eexists. split; [vm_compute; reflexivity|]. simpl. split; [reflexivity|tauto].
  - vm_compute. reflexivity.
Qed.


Example imap_tls_values :
  (imap_tls <$> getImapConfig_value (imap_world "false")) = Some false
  /\ (imap_tls <$> getImapConfig_value (imap_world "FALSE")) = Some true
  /\ (imap_tls <$> getImapConfig_value (imap_world "0")) = Some true
  /\ (imap_tls <$> getImapConfig_value (imap_world "no")) = Some true
  /\ (imap_tls <$> getImapConfig_value (world coo_dev ∅ (Some "dev")))
     = Some true.
Proof. vm_compute. repeat split. Qed.


End ConfigFacts.

(** ** Authentication *)

Section AuthFacts.

Implicit Types (w : World) (k : string).

Lemma safe_equal_eq k s : safe_equal k s = true <-> k = s.
Proof.
  unfold safe_equal, timingSafeEqual. rewrite andb_true_iff, String.eqb_eq.
  split; [tauto|]. intros ->. split; [apply Nat.eqb_refl|reflexivity].
Qed.

Lemma resolve_in_member k l agentId :
  resolve_in k l = Some agentId ->
  exists a, In (agentId, a) l /\ apiKey a = k.
Proof.
  induction l as [|[id a] l IH]; simpl; [discriminate|].
  destruct (safe_equal k (apiKey a)) eqn:E.
  - intros [= <-]. apply safe_equal_eq in E. eauto.
  - intros H. destruct (IH H) as (a' & Hin & Hk). eauto.
Qed.

Lemma resolve_nonempty w k agentId :
  agent_ids_nonempty (agentsConfig w) ->
  resolveAgentByApiKey w k = Some agentId -> truthy agentId = true.
Proof.
  unfold agent_ids_nonempty, resolveAgentByApiKey. intros Hall Hres.
  destruct (resolve_in_member _ _ _ Hres) as (a & Hin & _).
  rewrite Forall_forall in Hall. apply truthy_true.
  apply (Hall (agentId, a)), list_elem_of_In, Hin.
Qed.

Lemma static_key_truthy config :
  truthyO (srv_apiKey config)
  = match static_key config with Some _ => true | None => false end.
Proof.
  unfold static_key, truthyO. destruct (srv_apiKey config) as [[|c r]|];
    reflexivity.
Qed.

(** C5 as claimed fails: an agent whose identifier is the empty string
    is matched by [resolveAgentByApiKey], yet the call is rejected
    instead of being bound to it. *)
Lemma authenticate_rejects_empty_identifier :
  let w := world empty_id_file ∅ None in
  let config :=
    {| srv_port := 3000; srv_host := "127.0.0.1"; srv_apiKey := None |} in
  getServerConfig w = Ok config
  /\ resolveAgentByApiKey w "key-123" = Some ""
  /\ auth_decision (hasAgents w) (static_key config)
       (resolveAgentByApiKey w) (HString "key-123") = Next (Some "")
  /\ authenticate w (HString "key-123") = Ok reject
  /\ authenticate w (HString "key-123")
     <> Ok (auth_decision (hasAgents w) (static_key config)
              (resolveAgentByApiKey w) (HString "key-123")).
Proof. vm_compute. repeat split; congruence. Qed.

(** C5, amended: when the agent identifiers are non-empty strings,
    [authenticate] takes exactly the claimed decision: with no agents
    and no static key the call is allowed with no identity; otherwise a
    missing or non-string key header is rejected with Unauthorized; in
    multi-agent mode the key is resolved by [resolveAgentByApiKey],
    rejected when nothing matches, and on a match the /mcp route runs
    the call with that identifier as the ambient identity; in single-key
    mode the key must equal the static key. *)
Theorem authenticate_decision w config providedKey :
  agent_ids_nonempty (agentsConfig w) ->
  getServerConfig w = Ok config ->
  let decision :=
    auth_decision (hasAgents w) (static_key config)
      (resolveAgentByApiKey w) providedKey in
  authenticate w providedKey = Ok decision
  /\ forall R (handleRequest : World -> outcome R),
       post_mcp w providedKey handleRequest
       = Ok (route_decision decision handleRequest w).
Proof.
  intros Hids Hcfg decision.
  assert (Hauth : authenticate w providedKey = Ok decision).
  { subst decision. unfold authenticate, auth_decision. rewrite Hcfg. simpl.
    rewrite static_key_truthy.
    destruct (hasAgents w) eqn:Hm; simpl.
    - destruct (static_key config); destruct providedKey as [|k|l];
        try reflexivity;
        (destruct (resolveAgentByApiKey w k) as [agentId|] eqn:Hr;
         [rewrite (resolve_nonempty _ _ _ Hids Hr)|]; reflexivity).
    - destruct (static_key config) as [s|] eqn:Hs; simpl; [|reflexivity].
      destruct providedKey as [|k|l]; try reflexivity.
      assert (Hbuf : nullish (srv_apiKey config) "" = s).
      { unfold static_key in Hs. destruct (srv_apiKey config) as [[|c r]|];
          simpl; congruence. }
      rewrite Hbuf, <- negb_andb. fold (safe_equal k s).
      destruct (safe_equal k s) eqn:E; simpl.
      + apply safe_equal_eq in E. subst.
        rewrite bool_decide_eq_true_2; reflexivity.
      + rewrite bool_decide_eq_false_2; [reflexivity|].
        intros [= ->]. rewrite (proj2 (safe_equal_eq k k) eq_refl) in E.
        discriminate. }
  split; [exact Hauth|].
  assert (Hid : forall agentId,
             decision = Next (Some agentId) -> truthy agentId = true).
  { subst decision. unfold auth_decision. intros agentId.
    destruct (hasAgents w); destruct (static_key config);
      destruct providedKey as [|k|l]; simpl; try discriminate.
    all: try (destruct (resolveAgentByApiKey w k) as [a|] eqn:Hr;
              [intros [= <-]; exact (resolve_nonempty _ _ _ Hids Hr)
              |discriminate]).
    destruct (bool_decide _); discriminate. }
  intros R handleRequest. unfold post_mcp. rewrite Hauth. simpl.
  clearbody decision. destruct decision as [[agentId|]|code message]; simpl.
  - rewrite (Hid agentId eq_refl). unfold serve, runWithAgent, bind_identity.
    destruct (handleRequest _); reflexivity.
  - unfold serve. destruct (handleRequest w); reflexivity.
  - reflexivity.
Qed.

Lemma authenticate_decision_witness :
  authenticate (world coo_dev ∅ None) (HString "key-dev-456")
  = Ok (Next (Some "dev")).
Proof.
  apply (authenticate_decision (world coo_dev ∅ None)
           {| srv_port := 3000; srv_host := "127.0.0.1"; srv_apiKey := None |}
           (HString "key-dev-456")).
  - repeat constructor; simpl; discriminate.
  - vm_compute. reflexivity.
Defined.

End AuthFacts.

(** ** The gate_email tool *)

Section GateFacts.

Variable getMessage : ImapConfig -> string -> Z -> outcome EmailFull.
Variable fetch : Request -> outcome Response.

Implicit Types (w : World) (uid : Z) (mailbox : option string)
  (read_body : option bool) (email : EmailFull).

Local Abbreviation gate := (gate_email getMessage fetch).
Local Abbreviation deliver := (deliver_audit fetch).

(** The audit step written out case by case. *)
Lemma deliver_audit_cases commsUrl commsToken message :
  let req := audit_request commsUrl (nullish commsToken "") message in
  deliver commsUrl commsToken message =
  if truthyO commsToken then
    match fetch req with
    | Ok resp =>
        if ok resp then ([Fetch req (Ok resp)], Ok true)
        else ([Fetch req (Ok resp);
               Console ("gate_email: failed to log to #email-log: "
                        +:+ showZ (status resp))], Ok false)
    | Throw e =>
        ([Fetch req (Throw e);
          Console ("gate_email: comms error: " +:+ e)], Ok false)
    end
  else
    ([Console "gate_email: no COMMS_TOKEN configured, skipping #email-log"],
     Ok false).
Proof.
  unfold deliver_audit, await_fetch, try_catch, bind, log, ret. simpl.
  destruct (truthyO commsToken); [|reflexivity].
  destruct (fetch _) as [resp|e]; [|reflexivity].
  destruct (ok resp); reflexivity.
Qed.

(** The audit step never throws, and its trace starts with the moment
    that settles it; with a delivery credential that moment is the POST
    of the audit record. *)
Lemma deliver_audit_total commsUrl commsToken message :
  exists e t logged,
    deliver commsUrl commsToken message = (e :: t, Ok logged)
    /\ audit_settled (Did e)
    /\ (truthyO commsToken = true ->
        exists res,
          e = Fetch (audit_request commsUrl (nullish commsToken "") message)
                res).
Proof.
  rewrite deliver_audit_cases. simpl.
  destruct (truthyO commsToken).
  - destruct (fetch _) as [resp|e].
    + destruct (ok resp); do 3 eexists; (split; [reflexivity|]);
        simpl; eauto 6.
    + do 3 eexists. split; [reflexivity|]. simpl; eauto 6.
  - do 3 eexists. split; [reflexivity|]. split; [reflexivity|discriminate].
Qed.

(** A call whose message is fetched: the trace is the first console
    line, the IMAP fetch, then the audit step; the value is
    [responseData] with the audit step's flag. *)
Lemma gate_email_fetched w uid mailbox read_body ic email :
  getImapConfig w = Ok ic ->
  getMessage ic (orElse mailbox "INBOX") uid = Ok email ->
  let mb := orElse mailbox "INBOX" in
  forall t logged,
    deliver (nullish (getEnv w "COMMS_URL") "http://127.0.0.1:9754")
      (getEnv w "COMMS_TOKEN")
      (logLines uid mb (nullish (getCurrentAgentId w) "unknown") email)
    = (t, Ok logged) ->
    gate w uid mailbox read_body
    = ((Console ("gate_email uid=" +:+ showZ uid +:+ " mailbox=" +:+ mb)
        :: ImapGetMessage ic mb uid (Ok email) :: t)%list,
       Ok (responseData email logged read_body)).
Proof.
  intros Hic Hmsg mb t logged Haudit.
  unfold gate_email, await_getMessage, lift, try_catch, bind, log, ret.
  fold mb. rewrite Hic. simpl. fold mb in Hmsg. rewrite Hmsg.
  rewrite Haudit. simpl. rewrite app_nil_r. reflexivity.
Qed.

(** A call whose configuration or message fetch fails returns the error
    object, and nothing else. *)
Lemma gate_email_failed w uid mailbox read_body :
  (forall ic, getImapConfig w = Ok ic ->
              exists msg, getMessage ic (orElse mailbox "INBOX") uid = Throw msg) ->
  exists t msg, gate w uid mailbox read_body = (t, Ok [("error", JStr msg)]).
Proof.
  intros Hfail.
  unfold gate_email, await_getMessage, lift, try_catch, bind, log, ret.
  destruct (getImapConfig w) as [ic|msg] eqn:Hic; simpl.
  - destruct (Hfail ic eq_refl) as [msg Hmsg]. rewrite Hmsg. simpl. eauto.
  - eauto.
Qed.

(** Every call is of one of the two kinds. *)
Lemma gate_email_cases w uid mailbox read_body :
  (exists t msg, gate w uid mailbox read_body = (t, Ok [("error", JStr msg)]))
  \/ (exists ic email e t logged,
        getImapConfig w = Ok ic
        /\ getMessage ic (orElse mailbox "INBOX") uid = Ok email
        /\ audit_settled (Did e)
        /\ (truthyO (getEnv w "COMMS_TOKEN") = true ->
            exists res,
              e = Fetch
                    (audit_request
                       (nullish (getEnv w "COMMS_URL") "http://127.0.0.1:9754")
                       (nullish (getEnv w "COMMS_TOKEN") "")
                       (logLines uid (orElse mailbox "INBOX")
                          (nullish (getCurrentAgentId w) "unknown") email))
                    res)
        /\ gate w uid mailbox read_body
           = ((Console ("gate_email uid=" +:+ showZ uid +:+ " mailbox="
                        +:+ orElse mailbox "INBOX")
               :: ImapGetMessage ic (orElse mailbox "INBOX") uid (Ok email)
               :: e :: t)%list,
              Ok (responseData email logged read_body))).
Proof.
  destruct (getImapConfig w) as [ic|msg] eqn:Hic.
  - destruct (getMessage ic (orElse mailbox "INBOX") uid) as [email|msg] eqn:Hm.
    + right.
      destruct (deliver_audit_total
                  (nullish (getEnv w "COMMS_URL") "http://127.0.0.1:9754")
                  (getEnv w "COMMS_TOKEN")
                  (logLines uid (orElse mailbox "INBOX")
                     (nullish (getCurrentAgentId w) "unknown") email))
        as (e & t & logged & Hd & He & Hf).
      exists ic, email, e, t, logged. repeat split; try assumption.
      apply (gate_email_fetched w uid mailbox read_body ic email Hic Hm).
      exact Hd.
    + left. apply gate_email_failed. intros ic' Hic'.
      assert (ic' = ic) as -> by congruence. eauto.
  - left. apply gate_email_failed. intros ic' Hic'. congruence.
Qed.

(** A key is none of the listed ones; every listed key is among the
    caller-safe ones. *)
Ltac key_absent :=
  let H := fresh "H" in
  intros H; simpl in H;
  repeat match type of H with
         | _ \/ _ => destruct H as [H|H]; [discriminate H|]
         end;
  exact H.

Ltac keys_included :=
  let a := fresh "a" in
  let H := fresh "H" in
  intros a H; simpl in H |- *;
  repeat match type of H with
         | _ \/ _ => destruct H as [<-|H]; [tauto|]
         end;
  destruct H.

Lemma responseData_keys email logged read_body :
  let d := responseData email logged read_body in
  ~ In "subject" (keys d) /\ ~ In "messageId" (keys d)
  /\ incl (keys d) caller_safe_keys
  /\ prop_lookup "logged" d = Some (JBool logged)
  /\ prop_lookup "email_log_channel" d = Some (JStr "email-log")
  /\ prop_lookup "uid" d = Some (JNum (Types.uid email))
  /\ prop_lookup "from" d = Some (JStr (from email))
  /\ prop_lookup "date" d = Some (JStr (date email)).
Proof.
  unfold responseData, caller_safe_keys, keys, incl.
  destruct read_body as [[|]|]; simpl;
    destruct (text email) as [t|]; try destruct (truthy t);
    destruct (html email) as [h|]; try destruct (truthy h); simpl;
    repeat split; first [reflexivity | key_absent | keys_included].
Qed.

(** The returned object does not depend on the subject or the message-id
    of the fetched message. *)
Lemma responseData_ignores_subject email logged read_body s m :
  responseData (with_subject_and_id email s m) logged read_body
  = responseData email logged read_body.
Proof. reflexivity. Qed.

(** C7: the object every gate_email call returns has no [subject] and no
    [messageId] property.  It is either the error object of a call whose
    message could not be fetched, or the metadata of the fetched
    message: only the caller-safe fields uid, from, date, logged,
    email_log_channel and (on request) the wrapped body, always with the
    [logged] flag and the channel name "email-log", and the same
    whatever the subject and message-id of the message are. *)
Theorem gate_email_metadata w uid mailbox read_body :
  exists t d,
    gate w uid mailbox read_body = (t, Ok d)
    /\ ~ In "subject" (keys d) /\ ~ In "messageId" (keys d)
    /\ ((exists msg, d = [("error", JStr msg)]
                     /\ forall ic, getImapConfig w = Ok ic ->
                          exists e,
                            getMessage ic (orElse mailbox "INBOX") uid = Throw e)
        \/ (exists ic email logged,
              getImapConfig w = Ok ic
              /\ getMessage ic (orElse mailbox "INBOX") uid = Ok email
              /\ incl (keys d) caller_safe_keys
              /\ prop_lookup "logged" d = Some (JBool logged)
              /\ prop_lookup "email_log_channel" d = Some (JStr "email-log")
              /\ prop_lookup "uid" d = Some (JNum (Types.uid email))
              /\ prop_lookup "from" d = Some (JStr (from email))
              /\ prop_lookup "date" d = Some (JStr (date email))
              /\ forall s m,
                   responseData (with_subject_and_id email s m) logged read_body
                   = d)).
Proof.
  destruct (gate_email_cases w uid mailbox read_body)
    as [(t & msg & H)|(ic & email & e & t & logged & Hic & Hm & _ & _ & H)].
  - exists t, [("error", JStr msg)]. split; [exact H|].
    split; [simpl; intros [?|[]]; discriminate|].
    split; [simpl; intros [?|[]]; discriminate|].
    left. exists msg. split; [reflexivity|].
    intros ic Hic.
    destruct (getMessage ic (orElse mailbox "INBOX") uid) as [email|e] eqn:Hm;
      [|eauto].
    exfalso.
    destruct (deliver_audit_total
                (nullish (getEnv w "COMMS_URL") "http://127.0.0.1:9754")
                (getEnv w "COMMS_TOKEN")
                (logLines uid (orElse mailbox "INBOX")
                   (nullish (getCurrentAgentId w) "unknown") email))
      as (e & t' & logged & Hd & _).
    rewrite (gate_email_fetched w uid mailbox read_body ic email Hic Hm _ _ Hd)
      in H.
    injection H as _ H.
    unfold responseData in H. discriminate H.
  - destruct (responseData_keys email logged read_body)
      as (H1 & H2 & H3 & H4 & H5 & H6 & H7 & H8).
    eexists _, _. split; [exact H|].
    split; [exact H1|]. split; [exact H2|].
    right. exists ic, email, logged. repeat split; try assumption.
Qed.

(** C8: when the message has been fetched and the audit sink does not
    take the record (the delivery credential is missing, the POST fails
    in transport, or it is answered outside 200..299), the call still
    returns its result, with [logged] false; nothing is thrown. *)
Theorem gate_email_sink_failure w uid mailbox read_body ic email :
  getImapConfig w = Ok ic ->
  getMessage ic (orElse mailbox "INBOX") uid = Ok email ->
  audit_not_delivered (getEnv w "COMMS_TOKEN")
    (fetch (audit_request
              (nullish (getEnv w "COMMS_URL") "http://127.0.0.1:9754")
              (nullish (getEnv w "COMMS_TOKEN") "")
              (logLines uid (orElse mailbox "INBOX")
                 (nullish (getCurrentAgentId w) "unknown") email))) ->
  exists t d,
    gate w uid mailbox read_body = (t, Ok d)
    /\ d = responseData email false read_body
    /\ prop_lookup "logged" d = Some (JBool false).
Proof.
  intros Hic Hm Hfail.
  pose proof (deliver_audit_cases
                (nullish (getEnv w "COMMS_URL") "http://127.0.0.1:9754")
                (getEnv w "COMMS_TOKEN")
                (logLines uid (orElse mailbox "INBOX")
                   (nullish (getCurrentAgentId w) "unknown") email)) as Hd.
  simpl in Hd.
  assert (Hfalse : exists t,
             deliver (nullish (getEnv w "COMMS_URL") "http://127.0.0.1:9754")
               (getEnv w "COMMS_TOKEN")
               (logLines uid (orElse mailbox "INBOX")
                  (nullish (getCurrentAgentId w) "unknown") email)
             = (t, Ok false)).
  { rewrite Hd. destruct Hfail as [Ht|[Ht|[[e He]|(resp & Hr & Hst)]]].
    - rewrite Ht. simpl. eauto.
    - rewrite Ht. simpl. eauto.
    - rewrite He. destruct (truthyO _); eauto.
    - rewrite Hr. assert (ok resp = false) as ->.
      { unfold ok. apply andb_false_iff.
        destruct (Z.leb_spec 200 (status resp)); [|left; reflexivity].
        right. apply Z.leb_gt. lia. }
      destruct (truthyO _); eauto. }
  destruct Hfalse as [t Ht].
  eexists _, _. split.
  - exact (gate_email_fetched w uid mailbox read_body ic email Hic Hm _ _ Ht).
  - split; [reflexivity|].
    apply (responseData_keys email false read_body).
Qed.

Lemma returned_is_last (t : list event) (x : moment) i d :
  (map Did t ++ [x])%list !! i = Some (Returned d) ->
  i = length t /\ x = Returned d.
Proof.
  revert i. induction t as [|e t IH]; intros [|i]; simpl.
  - intros [= ->]. split; reflexivity.
  - discriminate.
  - discriminate.
  - intros H. destruct (IH i H) as [-> ->]. split; reflexivity.
Qed.

(** C3, amended: in every run of gate_email that returns an object with
    body content ([text] or [html]), the message was fetched and the
    object is [responseData] of that message.  With a COMMS_TOKEN
    configured, the return comes after the completed POST of that
    message's audit record: the request went to the email-log channel of
    COMMS_URL with the JSON content type, the bearer token and, as its
    [message], the record lines of the fetched message (sender,
    recipient, subject, date, message-id, attachments and its text or
    else HTML part); its answer or failure is the one of [fetch], and
    the [logged] flag returned is that answer's [ok].  With no
    COMMS_TOKEN no request is made at all, and the body content is
    returned all the same, with [logged] false. *)
Theorem audit_precedes_body w uid mailbox read_body i d :
  timeline (gate w uid mailbox read_body) !! i = Some (Returned d) ->
  has_body d = true ->
  exists ic email,
    getImapConfig w = Ok ic
    /\ getMessage ic (orElse mailbox "INBOX") uid = Ok email
    /\ if truthyO (getEnv w "COMMS_TOKEN") then
         exists j req res,
           (j < i)%nat
           /\ timeline (gate w uid mailbox read_body) !! j
              = Some (Did (Fetch req res))
           /\ res = fetch req
           /\ req = {| req_url :=
                      nullish (getEnv w "COMMS_URL") "http://127.0.0.1:9754"
                      +:+ "/api/channels/email-log/messages";
                    req_method := "POST";
                    req_headers :=
                      [("Content-Type", "application/json");
                       ("Authorization",
                        "Bearer " +:+ nullish (getEnv w "COMMS_TOKEN") "")];
                    req_body :=
                      [("message",
                        JStr (join nl (filterBoolean
                          [ Some ("[gate_email] uid=" +:+ showZ uid
                                  +:+ " mailbox=" +:+ orElse mailbox "INBOX"
                                  +:+ " agent="
                                  +:+ nullish (getCurrentAgentId w) "unknown");
                            Some ("From: " +:+ from email);
                            Some ("To: " +:+ to email);
                            Some ("Subject: " +:+ subject email);
                            Some ("Date: " +:+ date email);
                            Some ("MessageId: "
                                  +:+ nullish (messageId email) "(none)");
                            (if truthyO (cc email)
                             then Some ("Cc: " +:+ nullish (cc email) "")
                             else None);
                            Some ("Attachments: " +:+ attachmentList email);
                            Some "---";
                            Some (match text email with
                                  | Some t => t
                                  | None => nullish (html email) "(no body)"
                                  end) ])))] |}
           /\ d = responseData email
                    match res with
                    | Ok resp => ok resp
                    | Throw _ => false
                    end
                    read_body
       else
         Forall (fun e => is_fetch e = false)
           (fst (gate w uid mailbox read_body))
         /\ d = responseData email false read_body.
Proof.
  intros Hret Hbody.
  destruct (gate_email_cases w uid mailbox read_body)
    as [(t & msg & H)|(ic & email & e & t & logged & Hic & Hm & _ & _ & _)].
  { rewrite H in Hret. unfold timeline in Hret. simpl in Hret.
    apply returned_is_last in Hret. destruct Hret as [_ [= <-]].
    discriminate Hbody. }
  exists ic, email. split; [exact Hic|]. split; [exact Hm|].
  pose proof (deliver_audit_cases
                (nullish (getEnv w "COMMS_URL") "http://127.0.0.1:9754")
                (getEnv w "COMMS_TOKEN")
                (logLines uid (orElse mailbox "INBOX")
                   (nullish (getCurrentAgentId w) "unknown") email)) as Hd.
  cbv zeta in Hd.
  pose proof (gate_email_fetched w uid mailbox read_body ic email Hic Hm)
    as Hrun.
  cbv zeta in Hrun.
  destruct (truthyO (getEnv w "COMMS_TOKEN")).
  - destruct (fetch _) as [resp|err] eqn:Hf; [destruct (ok resp) eqn:Hok|];
      specialize (Hrun _ _ Hd); rewrite Hrun in Hret |- *;
      unfold timeline in Hret |- *; simpl fst in *; simpl snd in *;
      apply returned_is_last in Hret; destruct Hret as [-> [= <-]];
      exists 2%nat; eexists _, _;
      (split; [simpl; lia|]); (split; [reflexivity|]);
      (split; [symmetry; exact Hf|]); (split; [reflexivity|]);
      simpl; rewrite ?Hok; reflexivity.
  - specialize (Hrun _ _ Hd). rewrite Hrun in Hret |- *.
    unfold timeline in Hret. simpl fst in *. simpl snd in *.
    apply returned_is_last in Hret. destruct Hret as [_ [= <-]].
    split; [repeat constructor|reflexivity].
Qed.

End GateFacts.

Lemma gate_email_sink_failure_witness :
  exists t d,
    gate_email imap_ok (sink 500) gate_world 7 None (Some true) = (t, Ok d)
    /\ d = responseData sample_email false (Some true)
    /\ prop_lookup "logged" d = Some (JBool false).
Proof.
  apply (gate_email_sink_failure imap_ok (sink 500) gate_world 7 None
           (Some true)
           {| imap_host := "imap.biz.com"; imap_port := Num 993;
              imap_user := "shared@biz.com"; imap_pass := "secret";
              imap_tls := true |}
           sample_email).
  - vm_compute. reflexivity.
  - reflexivity.
  - right. right. right. eexists. split; [reflexivity|]. simpl. lia.
Defined.

Lemma audit_precedes_body_witness :
  exists ic email,
    getImapConfig gate_world = Ok ic
    /\ imap_ok ic (orElse None "INBOX") 7 = Ok email
    /\ if truthyO (getEnv gate_world "COMMS_TOKEN") then
         exists j req res,
           (j < 4)%nat
           /\ timeline (gate_email imap_ok (sink 500) gate_world 7 None
                          (Some true)) !! j
              = Some (Did (Fetch req res))
           /\ res = sink 500 req
           /\ req = audit_request
                      (nullish (getEnv gate_world "COMMS_URL")
                         "http://127.0.0.1:9754")
                      (nullish (getEnv gate_world "COMMS_TOKEN") "")
                      (logLines 7 (orElse None "INBOX")
                         (nullish (getCurrentAgentId gate_world) "unknown")
                         email)
           /\ responseData sample_email false (Some true)
              = responseData email
                  match res with
                  | Ok resp => ok resp
                  | Throw _ => false
                  end
                  (Some true)
       else
         Forall (fun e => is_fetch e = false)
           (fst (gate_email imap_ok (sink 500) gate_world 7 None (Some true)))
         /\ responseData sample_email false (Some true)
            = responseData email false (Some true).
Proof.
  apply (audit_precedes_body imap_ok (sink 500) gate_world 7 None (Some true)
           4%nat
           (responseData sample_email false (Some true))).
  - vm_compute. reflexivity.
  - vm_compute. reflexivity.
Defined.

(** C3 as claimed fails: with no COMMS_TOKEN configured, which is the
    default, the call returns the wrapped body of the message and the
    run holds no request to the audit sink; all that precedes the
    return is the console line saying the log was skipped. *)
Lemma body_returned_with_nothing_sent :
  let w := world coo_dev ∅ (Some "dev") in
  let run := gate_email imap_ok (sink 200) w 7 None (Some true) in
  getEnv w "COMMS_TOKEN" = None
  /\ snd run = Ok (responseData sample_email false (Some true))
  /\ has_body (responseData sample_email false (Some true)) = true
  /\ fst run
     = [ Console "gate_email uid=7 mailbox=INBOX";
         ImapGetMessage
           {| imap_host := "imap.biz.com"; imap_port := Num 993;
              imap_user := "shared@biz.com"; imap_pass := "secret";
              imap_tls := true |}
           "INBOX" 7 (Ok sample_email);
         Console "gate_email: no COMMS_TOKEN configured, skipping #email-log" ]
  /\ List.filter is_fetch (fst run) = [].
Proof. vm_compute. repeat split. Qed.

(** ** The sanitizer of gate_email *)

Section SanitizerFacts.

Implicit Types (alts : list string) (p s u v : string) (c a : ascii).

(* Let [simpl] unfold an append whose first argument starts with a
   constructor. *)
Local Arguments String.append !s1 s2 : simpl nomatch.

Lemma length_append u v :
  String.length (u +:+ v) = (String.length u + String.length v)%nat.
Proof. induction u as [|c u IH]; simpl; [reflexivity|]. rewrite IH. reflexivity. Qed.

Lemma starts_ci_split p s :
  starts_ci p s = true -> exists u v, s = u +:+ v /\ matches_ci p u = true.
Proof.
  revert s. induction p as [|a p IH]; intros s; simpl.
  - intros _. exists "", s. split; reflexivity.
  - destruct s as [|c s]; [discriminate|].
    intros H. apply andb_true_iff in H as [Hc Hs].
    destruct (IH s Hs) as (u & v & -> & Hu).
    exists (String c u), v. split; [reflexivity|].
    simpl. rewrite Hc, Hu. reflexivity.
Qed.

Lemma matches_starts p u v : matches_ci p u = true -> starts_ci p (u +:+ v) = true.
Proof.
  revert u. induction p as [|a p IH]; intros [|c u]; simpl; try discriminate.
  - reflexivity.
  - intros H. apply andb_true_iff in H as [Hc Hu].
    rewrite Hc, (IH u Hu). reflexivity.
Qed.

Lemma matches_length p u : matches_ci p u = true -> String.length u = String.length p.
Proof.
  revert u. induction p as [|a p IH]; intros [|c u]; simpl; try discriminate.
  - reflexivity.
  - intros H. apply andb_true_iff in H as [_ Hu]. rewrite (IH u Hu). reflexivity.
Qed.

(** *** One pass of [replace], unfolded *)

Lemma replaceAll_copy alts c s :
  match_at alts (String c s) = None ->
  replaceAll alts (String c s) = String c (replaceAll alts s).
Proof. unfold replaceAll. simpl replace_from. intros ->. reflexivity. Qed.

Lemma replace_from_skip alts u v :
  replace_from alts (String.length u) (u +:+ v) = replaceAll alts v.
Proof. induction u as [|c u IH]; simpl; [destruct v; reflexivity|exact IH]. Qed.

Lemma replaceAll_hit alts c u v :
  match_at alts (String c u +:+ v) = Some (String.length (String c u)) ->
  replaceAll alts (String c u +:+ v) = TAG_STRIPPED +:+ replaceAll alts v.
Proof.
  unfold replaceAll at 1. simpl. intros H. simpl in H. rewrite H.
  simpl. rewrite replace_from_skip. reflexivity.
Qed.

Lemma match_at_found alts s n :
  match_at alts s = Some n ->
  exists p, In p alts /\ starts_ci p s = true /\ n = String.length p.
Proof.
  induction alts as [|q alts IH]; simpl; [discriminate|].
  destruct (starts_ci q s) eqn:E.
  - intros [= <-]. exists q. auto.
  - intros H. destruct (IH H) as (p & Hin & Hp & Hn). exists p. auto.
Qed.

Lemma match_at_none alts s p :
  match_at alts s = None -> In p alts -> starts_ci p s = false.
Proof.
  induction alts as [|q alts IH]; simpl; [tauto|].
  destruct (starts_ci q s) eqn:E; [discriminate|].
  intros H [<-|Hin]; [exact E|exact (IH H Hin)].
Qed.

Lemma match_at_head_miss alts c s :
  heads_avoid alts (lower c) = true -> match_at alts (String c s) = None.
Proof.
  unfold heads_avoid. induction alts as [|q alts IH]; simpl; [reflexivity|].
  intros H. apply andb_true_iff in H as [Hq Hr].
  destruct q as [|h q]; [discriminate|]. simpl.
  rewrite Ascii.eqb_sym. apply negb_true_iff in Hq. rewrite Hq. simpl.
  exact (IH Hr).
Qed.

(** A stretch of text that matches a literal none of whose characters
    can start a match is copied unchanged. *)
Lemma replaceAll_copies alts p u v :
  all_chars (heads_avoid alts) p = true ->
  matches_ci p u = true ->
  replaceAll alts (u +:+ v) = u +:+ replaceAll alts v.
Proof.
  revert u. induction p as [|a p IH]; intros [|c u]; simpl; try discriminate.
  - reflexivity.
  - intros Hp Hu. apply andb_true_iff in Hp as [Ha Hp].
    apply andb_true_iff in Hu as [Hc Hu]. apply Ascii.eqb_eq in Hc. subst a.
    rewrite replaceAll_copy by (apply match_at_head_miss; exact Ha).
    rewrite (IH u Hp Hu). reflexivity.
Qed.

(** What follows the first character of a match in the output of a pass
    was already there in its input: the placeholder starts with an
    opening bracket, which no marker has after its first character. *)
Lemma starts_ci_before_pass alts p s :
  free_of open_bracket p = true ->
  starts_ci p (replaceAll alts s) = true -> starts_ci p s = true.
Proof.
  unfold free_of. revert s. induction p as [|a p IH]; intros s Hp; simpl.
  - reflexivity.
  - apply andb_true_iff in Hp as [Ha Hp].
    destruct s as [|c s]; [simpl; discriminate|].
    unfold replaceAll. simpl replace_from.
    destruct (match_at alts (String c s)) as [n|].
    + apply negb_true_iff in Ha. rewrite Ascii.eqb_sym in Ha.
      change (lower "["%char) with open_bracket. rewrite Ha. discriminate.
    + intros H. apply andb_true_iff in H as [Hc Hs].
      rewrite Hc. exact (IH s Hp Hs).
Qed.

Lemma starts_ci_cons_before_pass alts a p c s :
  free_of open_bracket p = true ->
  starts_ci (String a p) (String c s) = false ->
  starts_ci (String a p) (String c (replaceAll alts s)) = false.
Proof.
  intros Hp H. simpl in *. destruct (Ascii.eqb (lower c) a); [|reflexivity].
  simpl in *. destruct (starts_ci p (replaceAll alts s)) eqn:E; [|reflexivity].
  rewrite (starts_ci_before_pass alts p s Hp E) in H. discriminate.
Qed.

(** *** The placeholder is inert *)

Lemma re_angle_over_placeholder s :
  replaceAll re_angle (TAG_STRIPPED +:+ s) = TAG_STRIPPED +:+ replaceAll re_angle s.
Proof. reflexivity. Qed.

Lemma re_bracket_over_placeholder s :
  replaceAll re_bracket (TAG_STRIPPED +:+ s)
  = TAG_STRIPPED +:+ replaceAll re_bracket s.
Proof. reflexivity. Qed.

Lemma re_brace_over_placeholder s :
  replaceAll re_brace (TAG_STRIPPED +:+ s) = TAG_STRIPPED +:+ replaceAll re_brace s.
Proof. reflexivity. Qed.

Lemma placeholder_has_no_marker p s :
  In p boundary_markers ->
  occurs_ci p (TAG_STRIPPED +:+ s) = occurs_ci p s.
Proof.
  intros [<-|[<-|[<-|[<-|[]]]]]; reflexivity.
Qed.

(** *** The three passes are one pass over all markers *)

Lemma shorter_tail c u v s n :
  String c u +:+ v = s -> n = String.length s -> (String.length v < n)%nat.
Proof. intros <- ->. rewrite length_append. simpl. lia. Qed.

Lemma stripUntrusted_neutralize s : stripUntrusted s = neutralize s.
Proof.
  remember (String.length s) as n eqn:Hn. revert s Hn.
  induction n as [n IH] using lt_wf_ind. intros s Hn.
  destruct s as [|c r]; [reflexivity|].
  unfold stripUntrusted, neutralize.
  destruct (starts_ci "</untrusted>" (String c r)) eqn:E1;
    [|destruct (starts_ci "<untrusted>" (String c r)) eqn:E2;
      [|destruct (starts_ci "[/untrusted]" (String c r)) eqn:E3;
        [|destruct (starts_ci "{/untrusted}" (String c r)) eqn:E4]]].
  - destruct (starts_ci_split _ _ E1) as (u & v & Hs & Hu).
    pose proof (matches_length _ _ Hu) as Hl.
    destruct u as [|c' u]; [discriminate Hl|].
    rewrite Hs in *.
    rewrite (replaceAll_hit re_angle c' u v)
      by (unfold re_angle, match_at; rewrite E1, Hl; reflexivity).
    rewrite (replaceAll_hit boundary_markers c' u v)
      by (unfold boundary_markers, match_at; rewrite E1, Hl; reflexivity).
    rewrite re_bracket_over_placeholder, re_brace_over_placeholder.
    f_equal. apply (IH (String.length v)); [|reflexivity].
    exact (shorter_tail _ _ _ _ _ eq_refl Hn).
  - destruct (starts_ci_split _ _ E2) as (u & v & Hs & Hu).
    pose proof (matches_length _ _ Hu) as Hl.
    destruct u as [|c' u]; [discriminate Hl|].
    rewrite Hs in *.
    rewrite (replaceAll_hit re_angle c' u v)
      by (unfold re_angle, match_at; rewrite E1, E2, Hl; reflexivity).
    rewrite (replaceAll_hit boundary_markers c' u v)
      by (unfold boundary_markers, match_at; rewrite E1, E2, Hl; reflexivity).
    rewrite re_bracket_over_placeholder, re_brace_over_placeholder.
    f_equal. apply (IH (String.length v)); [|reflexivity].
    exact (shorter_tail _ _ _ _ _ eq_refl Hn).
  - destruct (starts_ci_split _ _ E3) as (u & v & Hs & Hu).
    pose proof (matches_length _ _ Hu) as Hl.
    destruct u as [|c' u]; [discriminate Hl|].
    rewrite Hs in *.
    rewrite (replaceAll_copies re_angle "[/untrusted]" _ v eq_refl Hu).
    rewrite (replaceAll_hit re_bracket c' u)
      by (unfold re_bracket, match_at;
          rewrite (matches_starts _ _ _ Hu), Hl; reflexivity).
    rewrite (replaceAll_hit boundary_markers c' u v)
      by (unfold boundary_markers, match_at; rewrite E1, E2, E3, Hl;
          reflexivity).
    rewrite re_brace_over_placeholder.
    f_equal. apply (IH (String.length v)); [|reflexivity].
    exact (shorter_tail _ _ _ _ _ eq_refl Hn).
  - destruct (starts_ci_split _ _ E4) as (u & v & Hs & Hu).
    pose proof (matches_length _ _ Hu) as Hl.
    destruct u as [|c' u]; [discriminate Hl|].
    rewrite Hs in *.
    rewrite (replaceAll_copies re_angle "{/untrusted}" _ v eq_refl Hu).
    rewrite (replaceAll_copies re_bracket "{/untrusted}" _ _ eq_refl Hu).
    rewrite (replaceAll_hit re_brace c' u)
      by (unfold re_brace, match_at;
          rewrite (matches_starts _ _ _ Hu), Hl; reflexivity).
    rewrite (replaceAll_hit boundary_markers c' u v)
      by (unfold boundary_markers, match_at; rewrite E1, E2, E3, E4, Hl;
          reflexivity).
    f_equal. apply (IH (String.length v)); [|reflexivity].
    exact (shorter_tail _ _ _ _ _ eq_refl Hn).
  - pose proof (starts_ci_cons_before_pass re_angle "["%char "/untrusted]"
                  c r eq_refl E3) as E3'.
    pose proof (starts_ci_cons_before_pass re_angle "{"%char "/untrusted}"
                  c r eq_refl E4) as E4'.
    pose proof (starts_ci_cons_before_pass re_bracket "{"%char "/untrusted}"
                  c (replaceAll re_angle r) eq_refl E4') as E4''.
    rewrite (replaceAll_copy re_angle)
      by (unfold re_angle, match_at; rewrite E1, E2; reflexivity).
    rewrite (replaceAll_copy re_bracket)
      by (unfold re_bracket, match_at; rewrite E3'; reflexivity).
    rewrite (replaceAll_copy re_brace)
      by (unfold re_brace, match_at; rewrite E4''; reflexivity).
    rewrite (replaceAll_copy boundary_markers)
      by (unfold boundary_markers, match_at; rewrite E1, E2, E3, E4;
          reflexivity).
    f_equal. apply (IH (String.length r)); [|reflexivity].
    subst n. simpl. lia.
Qed.

(** *** No marker is left *)

Lemma pass_leaves_none alts a p :
  In (String a p) alts ->
  free_of open_bracket p = true ->
  (forall s, occurs_ci (String a p) (TAG_STRIPPED +:+ s)
             = occurs_ci (String a p) s) ->
  (forall q, In q alts -> q <> "") ->
  forall s, occurs_ci (String a p) (replaceAll alts s) = false.
Proof.
  intros Hin Hfree Hph Hne s.
  remember (String.length s) as n eqn:Hn. revert s Hn.
  induction n as [n IH] using lt_wf_ind. intros s Hn.
  destruct s as [|c r]; [reflexivity|].
  destruct (match_at alts (String c r)) as [k|] eqn:Hm.
  - destruct (match_at_found _ _ _ Hm) as (q & Hq & Hs & ->).
    destruct (starts_ci_split _ _ Hs) as (u & v & Huv & Hu).
    pose proof (matches_length _ _ Hu) as Hl.
    destruct u as [|c' u].
    { destruct q; [exfalso; exact (Hne _ Hq eq_refl)|discriminate Hl]. }
    rewrite Huv in *. rewrite <- Hl in Hm.
    rewrite (replaceAll_hit alts c' u v Hm), Hph.
    apply (IH (String.length v)); [|reflexivity].
    exact (shorter_tail _ _ _ _ _ eq_refl Hn).
  - rewrite (replaceAll_copy alts c r Hm).
    change (occurs_ci (String a p) (String c (replaceAll alts r)))
      with (starts_ci (String a p) (String c (replaceAll alts r))
            || occurs_ci (String a p) (replaceAll alts r)).
    rewrite (starts_ci_cons_before_pass alts a p c r Hfree
               (match_at_none _ _ _ Hm Hin)).
    simpl. apply (IH (String.length r)); [|reflexivity].
    subst n. simpl. lia.
Qed.

Lemma neutralize_leaves_none p s :
  In p boundary_markers -> occurs_ci p (neutralize s) = false.
Proof.
  intros Hin. unfold neutralize.
  assert (Hne : forall q, In q boundary_markers -> q <> "").
  { intros q [<-|[<-|[<-|[<-|[]]]]]; discriminate. }
  pose proof (placeholder_has_no_marker p) as Hph.
  destruct Hin as [<-|[<-|[<-|[<-|[]]]]];
    (apply pass_leaves_none;
     [simpl; tauto | reflexivity | intros s'; apply Hph; simpl; tauto
     | exact Hne]).
Qed.

(** *** Counting the markers of the wrapped text *)

Lemma count_none p s : occurs_ci p s = false -> count_ci p s = 0%nat.
Proof.
  induction s as [|c s IH]; simpl.
  - rewrite orb_false_r. intros ->. reflexivity.
  - intros H. apply orb_false_iff in H as [-> H]. rewrite (IH H). reflexivity.
Qed.

Lemma starts_ci_before_newline p s v :
  free_of newline p = true ->
  starts_ci p (s +:+ String newline v) = starts_ci p s.
Proof.
  unfold free_of. revert s. induction p as [|a p IH]; intros s Hp.
  - reflexivity.
  - simpl in Hp. apply andb_true_iff in Hp as [Ha Hp].
    destruct s as [|c s].
    + change (Ascii.eqb newline a && starts_ci p v = false).
      apply negb_true_iff in Ha. rewrite Ascii.eqb_sym, Ha. reflexivity.
    + simpl. rewrite (IH s Hp). reflexivity.
Qed.

Lemma count_before_newline a p s v :
  free_of newline (String a p) = true ->
  count_ci (String a p) (s +:+ String newline v)
  = (count_ci (String a p) s + count_ci (String a p) (String newline v))%nat.
Proof.
  intros Hp. induction s as [|c s IH].
  - reflexivity.
  - change (String c s +:+ String newline v)
      with (String c (s +:+ String newline v)).
    change (count_ci (String a p) (String c (s +:+ String newline v)))
      with ((if starts_ci (String a p) (String c s +:+ String newline v)
             then 1 else 0)
            + count_ci (String a p) (s +:+ String newline v))%nat.
    rewrite (starts_ci_before_newline _ (String c s) v Hp), IH.
    simpl. lia.
Qed.

(** The wrapped text has exactly one opening and one closing marker, its
    own, and no bracket or brace marker. *)
Lemma wrapUntrusted_markers body :
  let wrapped := wrapUntrusted body in
  wrapped = "<untrusted>" +:+ nl +:+ neutralize body +:+ nl +:+ "</untrusted>"
  /\ count_ci "<untrusted>" wrapped = 1%nat
  /\ count_ci "</untrusted>" wrapped = 1%nat
  /\ count_ci "[/untrusted]" wrapped = 0%nat
  /\ count_ci "{/untrusted}" wrapped = 0%nat.
Proof.
  unfold wrapUntrusted. rewrite stripUntrusted_neutralize.
  split; [reflexivity|].
  assert (Hnone : forall p, In p boundary_markers ->
                            count_ci p (neutralize body) = 0%nat).
  { intros p Hp. apply count_none, neutralize_leaves_none, Hp. }
  repeat split.
  - change (1 + count_ci "<untrusted>"
                  (neutralize body +:+ String newline "</untrusted>") = 1)%nat.
    rewrite (count_before_newline "<"%char "untrusted>" (neutralize body)
               "</untrusted>" eq_refl).
    rewrite Hnone by (simpl; tauto). reflexivity.
  - change (0 + count_ci "</untrusted>"
                  (neutralize body +:+ String newline "</untrusted>") = 1)%nat.
    rewrite (count_before_newline "<"%char "/untrusted>" (neutralize body)
               "</untrusted>" eq_refl).
    rewrite Hnone by (simpl; tauto). reflexivity.
  - change (0 + count_ci "[/untrusted]"
                  (neutralize body +:+ String newline "</untrusted>") = 0)%nat.
    rewrite (count_before_newline "["%char "/untrusted]" (neutralize body)
               "</untrusted>" eq_refl).
    rewrite Hnone by (simpl; tauto). reflexivity.
  - change (0 + count_ci "{/untrusted}"
                  (neutralize body +:+ String newline "</untrusted>") = 0)%nat.
    rewrite (count_before_newline "{"%char "/untrusted}" (neutralize body)
               "</untrusted>" eq_refl).
    rewrite Hnone by (simpl; tauto). reflexivity.
Qed.

End SanitizerFacts.

Section GateBody.

Variable getMessage : ImapConfig -> string -> Z -> outcome EmailFull.
Variable fetch : Request -> outcome Response.

Lemma responseData_body email logged field body :
  (field = "text" /\ text email = Some body
   \/ field = "html" /\ html email = Some body) ->
  body <> "" ->
  prop_lookup field (responseData email logged (Some true))
  = Some (JStr (wrapUntrusted body)).
Proof.
  intros Hf Hb. apply truthy_true in Hb. unfold responseData. simpl.
  destruct Hf as [[-> Ht]|[-> Hh]].
  - rewrite Ht, Hb. reflexivity.
  - rewrite Hh, Hb. destruct (text email) as [t|]; [destruct (truthy t)|];
      reflexivity.
Qed.

(** C2 as claimed fails: the bracket and brace variants are replaced in
    their closing form only; the opening forms [untrusted] and
    {untrusted} of a body come back unchanged inside the wrapper. *)
Lemma opening_bracket_forms_survive :
  In "[untrusted]" all_tag_forms /\ In "{untrusted}" all_tag_forms
  /\ snd (gate_email (fun _ _ _ => Ok bracket_email) (sink 200) gate_world
            8 None (Some true))
     = Ok (responseData bracket_email true (Some true))
  /\ prop_lookup "text" (responseData bracket_email true (Some true))
     = Some (JStr ("<untrusted>" +:+ nl +:+ "see [untrusted] and {untrusted}"
                   +:+ nl +:+ "</untrusted>"))
  /\ occurs_ci "[untrusted]" (stripUntrusted "see [untrusted] and {untrusted}")
     = true
  /\ occurs_ci "{untrusted}" (stripUntrusted "see [untrusted] and {untrusted}")
     = true.
Proof.
  split; [simpl; tauto|]. split; [simpl; tauto|].
  vm_compute. repeat split.
Qed.

(** C2, amended: when the caller asks for the body of a fetched message,
    each body field it gets ([text], [html]) is the body with every
    occurrence of <untrusted>, </untrusted>, [/untrusted] or
    {/untrusted} (letters in either case) replaced by the placeholder,
    between "<untrusted>" and "</untrusted>" on lines of their own.
    None of these markers is left in the body, so the returned text has
    exactly one opening and one closing marker. *)
Theorem gate_email_body_wrapped w uid mailbox ic email field body :
  getImapConfig w = Ok ic ->
  getMessage ic (orElse mailbox "INBOX") uid = Ok email ->
  (field = "text" /\ text email = Some body
   \/ field = "html" /\ html email = Some body) ->
  body <> "" ->
  exists t d wrapped,
    gate_email getMessage fetch w uid mailbox (Some true) = (t, Ok d)
    /\ prop_lookup field d = Some (JStr wrapped)
    /\ wrapped
       = "<untrusted>" +:+ nl +:+ neutralize body +:+ nl +:+ "</untrusted>"
    /\ (forall p, In p boundary_markers ->
                  occurs_ci p (neutralize body) = false)
    /\ count_ci "<untrusted>" wrapped = 1%nat
    /\ count_ci "</untrusted>" wrapped = 1%nat
    /\ count_ci "[/untrusted]" wrapped = 0%nat
    /\ count_ci "{/untrusted}" wrapped = 0%nat.
Proof.
  intros Hic Hm Hf Hb.
  destruct (deliver_audit_total fetch
              (nullish (getEnv w "COMMS_URL") "http://127.0.0.1:9754")
              (getEnv w "COMMS_TOKEN")
              (logLines uid (orElse mailbox "INBOX")
                 (nullish (getCurrentAgentId w) "unknown") email))
    as (e & t & logged & Hd & _).
  destruct (wrapUntrusted_markers body) as (Hw & H1 & H2 & H3 & H4).
  eexists _, _, (wrapUntrusted body). split.
  - exact (gate_email_fetched getMessage fetch w uid mailbox (Some true)
             ic email Hic Hm _ _ Hd).
  - split; [exact (responseData_body email logged field body Hf Hb)|].
    split; [exact Hw|].
    split; [intros p Hp; apply neutralize_leaves_none, Hp|].
    repeat split; assumption.
Qed.

End GateBody.

Lemma gate_email_body_wrapped_witness :
  exists t d wrapped,
    gate_email imap_ok (sink 200) gate_world 7 None (Some true) = (t, Ok d)
    /\ prop_lookup "text" d = Some (JStr wrapped)
    /\ wrapped
       = "<untrusted>" +:+ nl +:+ neutralize "before</untrusted>after" +:+ nl
         +:+ "</untrusted>"
    /\ (forall p, In p boundary_markers ->
                  occurs_ci p (neutralize "before</untrusted>after") = false)
    /\ count_ci "<untrusted>" wrapped = 1%nat
    /\ count_ci "</untrusted>" wrapped = 1%nat
    /\ count_ci "[/untrusted]" wrapped = 0%nat
    /\ count_ci "{/untrusted}" wrapped = 0%nat.
Proof.
  apply (gate_email_body_wrapped imap_ok (sink 200) gate_world 7 None
           {| imap_host := "imap.biz.com"; imap_port := Num 993;
              imap_user := "shared@biz.com"; imap_pass := "secret";
              imap_tls := true |}
           sample_email "text" "before</untrusted>after").
  - vm_compute. reflexivity.
  - reflexivity.
  - left. split; reflexivity.
  - discriminate.
Defined.

(** The sanitizer on the sample body. *)
Example neutralize_sample :
  wrapUntrusted "before</untrusted>after"
  = "<untrusted>" +:+ nl +:+ "before[TAG_STRIPPED]after" +:+ nl
    +:+ "</untrusted>".
Proof. reflexivity. Qed.

(** ** More on the configuration *)

Section ConfigMore.

Implicit Types (w : World) (key agentId k : string).

(** *** Resolving an API key *)

Lemma resolve_in_none k l :
  resolve_in k l = None <->
  forall agentId a, In (agentId, a) l -> apiKey a <> k.
Proof.
  induction l as [|[id a] l IH]; simpl.
  - split; [intros _ ? ? []|reflexivity].
  - destruct (safe_equal k (apiKey a)) eqn:E.
    + apply safe_equal_eq in E. split; [discriminate|].
      intros H. exfalso. apply (H id a); auto.
    + rewrite IH. split.
      * intros H id' a' [[= <- <-]|Hin]; [|eauto].
        intros Heq. rewrite (proj2 (safe_equal_eq k (apiKey a))) in E by auto.
        discriminate.
      * intros H id' a' Hin. apply (H id' a'). auto.
Qed.

(** [resolveAgentByApiKey] answers with an agent of the file whose stored
    key is, byte for byte, the key presented, and answers [null] exactly
    when no agent of the file has that key. *)
Theorem resolveAgentByApiKey_sound_complete w k :
  (forall agentId,
      resolveAgentByApiKey w k = Some agentId ->
      exists a, In (agentId, a) (agents (agentsConfig w)) /\ apiKey a = k)
  /\ (resolveAgentByApiKey w k = None <->
      forall agentId a,
        In (agentId, a) (agents (agentsConfig w)) -> apiKey a <> k).
Proof.
  split.
  - intros agentId H. exact (resolve_in_member _ _ _ H).
  - apply resolve_in_none.
Qed.

(** When several agents share a key, the one enumerated first wins: an
    agent is resolved from its own key as soon as no agent before it in
    the file has the same key. *)
Theorem resolveAgentByApiKey_first_match w pre agentId a post :
  agents (agentsConfig w) = (pre ++ (agentId, a) :: post)%list ->
  (forall id' a', In (id', a') pre -> apiKey a' <> apiKey a) ->
  resolveAgentByApiKey w (apiKey a) = Some agentId.
Proof.
  unfold resolveAgentByApiKey. intros -> Hpre.
  induction pre as [|[id' a'] pre IH]; simpl.
  - rewrite (proj2 (safe_equal_eq _ _) eq_refl). reflexivity.
  - destruct (safe_equal (apiKey a) (apiKey a')) eqn:E.
    + apply safe_equal_eq in E. exfalso.
      apply (Hpre id' a'); [left; reflexivity|]. congruence.
    + apply IH. intros id'' a'' Hin. apply (Hpre id'' a''). right. exact Hin.
Qed.

Lemma resolveAgentByApiKey_first_match_witness :
  resolveAgentByApiKey (world coo_dev ∅ None) "key-dev-456" = Some "dev".
Proof.
  apply (resolveAgentByApiKey_first_match (world coo_dev ∅ None)
           [("coo", {| apiKey := "key-coo-123";
                       envKeys := {[ "SMTP_FROM" := "coo@biz.com" ]} |})]
           "dev" {| apiKey := "key-dev-456"; envKeys := ∅ |} []).
  - reflexivity.
  - intros id' a' [[= <- <-]|[]]. discriminate.
Defined.

(** *** The cache *)

Lemma loadAgentsConfig_calls_cached c reads res :
  In res (loadAgentsConfig_calls (Some c) reads) -> res = Ok c.
Proof.
  induction reads as [|r reads IH]; simpl; [tauto|].
  intros [<-|H]; [reflexivity|exact (IH H)].
Qed.

(** Once a call of [loadAgentsConfig] has returned a configuration, every
    later call returns that same configuration, whatever has become of
    the file and whatever the calls before it threw. *)
Theorem loadAgentsConfig_memoized cached reads i j c res :
  (i < j)%nat ->
  loadAgentsConfig_calls cached reads !! i = Some (Ok c) ->
  loadAgentsConfig_calls cached reads !! j = Some res ->
  res = Ok c.
Proof.
  revert cached i j. induction reads as [|r reads IH]; intros cached i j Hij.
  - destruct i; discriminate.
  - simpl. destruct (loadAgentsConfig_call cached r) as [cached' first] eqn:E.
    destruct i as [|i]; destruct j as [|j]; try lia; simpl.
    + intros Hi Hj.
      unfold loadAgentsConfig_call in E.
      destruct (loadAgentsConfig cached r) as [c'|m];
        injection E as <- <-; [|discriminate].
      injection Hi as ->.
      apply (loadAgentsConfig_calls_cached c reads res).
      apply list_elem_of_In, list_elem_of_lookup. eauto.
    + intros Hi Hj. apply (IH cached' i j); [lia|assumption|assumption].
Qed.

Lemma loadAgentsConfig_memoized_witness :
  Ok coo_dev = Ok coo_dev :> outcome AgentsFile.
Proof.
  apply (loadAgentsConfig_memoized None
           [FileError "EACCES"; FileParsed coo_dev; FileAbsent;
            FileError "Unexpected token"]
           1 3 coo_dev (Ok coo_dev)).
  - lia.
  - reflexivity.
  - reflexivity.
Defined.

(** *** Required settings *)

Lemma getRequiredEnv_ok w key v :
  getRequiredEnv w key = Ok v <-> getEnv w key = Some v /\ v <> "".
Proof.
  unfold getRequiredEnv.
  destruct (getEnv w key) as [val|]; [destruct (truthy val) eqn:E|].
  - apply truthy_true in E.
    split; [intros [= <-]; auto|intros [[= <-] _]; reflexivity].
  - apply negb_false_iff, String.eqb_eq in E. subst val.
    split; [discriminate|intros [[= <-] H]; congruence].
  - split; [discriminate|intros [[=] _]].
Qed.

Lemma getRequiredEnv_throw w key m :
  getRequiredEnv w key = Throw m ->
  (getEnv w key = None \/ getEnv w key = Some "")
  /\ m = "Missing required config: " +:+ key +:+ agent_suffix w.
Proof.
  unfold getRequiredEnv, missing_config, agent_suffix.
  destruct (getEnv w key) as [val|]; [destruct (truthy val) eqn:E|].
  - discriminate.
  - apply negb_false_iff, String.eqb_eq in E. subst val.
    intros [= <-]. auto.
  - intros [= <-]. auto.
Qed.

(** [getRequiredEnv] returns a value exactly when [getEnv] resolves the
    key to a non-empty string, and that value; otherwise it throws
    "Missing required config: <key>", followed by " (agent: <id>)" under
    a bound identity. *)
Theorem getRequiredEnv_spec w key :
  (forall v, getRequiredEnv w key = Ok v <->
             getEnv w key = Some v /\ v <> "")
  /\ (forall m, getRequiredEnv w key = Throw m ->
                (getEnv w key = None \/ getEnv w key = Some "")
                /\ m = "Missing required config: " +:+ key +:+ agent_suffix w).
Proof.
  split.
  - intros v. apply getRequiredEnv_ok.
  - intros m. apply getRequiredEnv_throw.
Qed.

(** An agent's own override that is the empty string hides the shared
    default and the process environment: under that identity [getEnv]
    yields the empty string and [getRequiredEnv] throws, whatever the
    other tiers hold. *)
Theorem empty_override_shadows w agentId a key :
  storage w = Some agentId -> agentId <> "" ->
  agent_lookup agentId (agents (agentsConfig w)) = Some a ->
  key <> "apiKey" ->
  envKeys a !! key = Some "" ->
  getEnv w key = Some ""
  /\ getRequiredEnv w key
     = Throw ("Missing required config: " +:+ key +:+ " (agent: "
              +:+ agentId +:+ ")").
Proof.
  intros Hs Hid Ha Hk He.
  assert (Hget : getEnv w key = Some "").
  { unfold getEnv, getCurrentAgentId.
    rewrite Hs, (proj2 (truthy_true agentId) Hid).
    rewrite (getAgentEnv_other_key w agentId key Hk). unfold own_override.
    rewrite (proj2 (String.eqb_neq key "apiKey") Hk), Ha, He. reflexivity. }
  split; [exact Hget|].
  unfold getRequiredEnv, missing_config, getCurrentAgentId.
  rewrite Hget, Hs, (proj2 (truthy_true agentId) Hid). reflexivity.
Qed.

Lemma empty_override_shadows_witness :
  getEnv (world blank_override_file {[ "SMTP_HOST" := "env-host.com" ]}
            (Some "ops")) "SMTP_HOST" = Some ""
  /\ getRequiredEnv (world blank_override_file
                       {[ "SMTP_HOST" := "env-host.com" ]} (Some "ops"))
       "SMTP_HOST"
     = Throw "Missing required config: SMTP_HOST (agent: ops)".
Proof.
  apply (empty_override_shadows
           (world blank_override_file {[ "SMTP_HOST" := "env-host.com" ]}
              (Some "ops"))
           "ops" {| apiKey := "key-ops-1";
                    envKeys := {[ "SMTP_HOST" := "" ]} |} "SMTP_HOST").
  - reflexivity.
  - discriminate.
  - reflexivity.
  - discriminate.
  - vm_compute. reflexivity.
Defined.

(** *** Isolation between agents *)

Lemma getEmailConfig_ext w1 w2 :
  storage w1 = storage w2 ->
  (forall key, getEnv w1 key = getEnv w2 key) ->
  getEmailConfig w1 = getEmailConfig w2 /\ getImapConfig w1 = getImapConfig w2.
Proof.
  intros Hs He.
  assert (Hr : forall key, getRequiredEnv w1 key = getRequiredEnv w2 key).
  { intros key. unfold getRequiredEnv, missing_config, getCurrentAgentId.
    rewrite He, Hs. reflexivity. }
  unfold getEmailConfig, getImapConfig. rewrite !Hr, !He. split; reflexivity.
Qed.

(** What is resolved under an identity depends on that agent's own
    record, the shared block and the process environment only: two
    credential files that agree on these give the same [getEnv],
    [getEmailConfig] and [getImapConfig] under that identity, whatever
    they hold for other agents. *)
Theorem resolution_ignores_other_agents w1 w2 agentId :
  agent_lookup agentId (agents (agentsConfig w1))
  = agent_lookup agentId (agents (agentsConfig w2)) ->
  shared (agentsConfig w1) = shared (agentsConfig w2) ->
  processEnv w1 = processEnv w2 ->
  (forall key,
      runWithAgent agentId (fun w => getEnv w key) w1
      = runWithAgent agentId (fun w => getEnv w key) w2)
  /\ runWithAgent agentId getEmailConfig w1
     = runWithAgent agentId getEmailConfig w2
  /\ runWithAgent agentId getImapConfig w1
     = runWithAgent agentId getImapConfig w2.
Proof.
  intros Ha Hsh Henv. unfold runWithAgent.
  assert (He : forall key,
             getEnv {| agentsConfig := agentsConfig w1;
                       processEnv := processEnv w1;
                       storage := Some agentId |} key
             = getEnv {| agentsConfig := agentsConfig w2;
                         processEnv := processEnv w2;
                         storage := Some agentId |} key).
  { intros key. unfold getEnv, getAgentEnv, shared_lookup, env_lookup. simpl.
    rewrite Ha, Hsh, Henv. reflexivity. }
  split; [exact He|].
  apply getEmailConfig_ext; [reflexivity|exact He].
Qed.

Lemma resolution_ignores_other_agents_witness :
  runWithAgent "coo" getEmailConfig (world coo_dev ∅ None)
  = runWithAgent "coo" getEmailConfig (world coo_dev_edited ∅ None).
Proof.
  apply (resolution_ignores_other_agents (world coo_dev ∅ None)
           (world coo_dev_edited ∅ None) "coo"); reflexivity.
Defined.

(** *** The server settings *)

(** What [getServerConfig] returns has a port between 1 and 65535, the
    one [parseInt] reads from MCP_PORT (3000 when unset), the host of
    MCP_HOST (127.0.0.1 when unset) and the key of MCP_API_KEY; what it
    throws is "Invalid MCP_PORT: " followed by the offending text, and
    only for a text [parseInt] reads as no port. *)
Theorem getServerConfig_spec w :
  let portStr := nullish (getEnv w "MCP_PORT") "3000" in
  match getServerConfig w with
  | Ok c =>
      (1 <= srv_port c <= 65535)%Z
      /\ parseInt portStr = Num (srv_port c)
      /\ srv_host c = nullish (getEnv w "MCP_HOST") "127.0.0.1"
      /\ srv_apiKey c = getEnv w "MCP_API_KEY"
  | Throw m =>
      m = "Invalid MCP_PORT: " +:+ portStr /\ ~ valid_port (parseInt portStr)
  end.
Proof.
  unfold getServerConfig.
  destruct (parseInt (nullish (getEnv w "MCP_PORT") "3000")) as [|p]; simpl.
  - split; [reflexivity|tauto].
  - destruct (Z.ltb_spec p 1); simpl; [split; [reflexivity|lia]|].
    destruct (Z.ltb_spec 65535 p); simpl; [split; [reflexivity|lia]|].
    repeat split; lia.
Qed.

(** *** The mail settings *)

(** A configuration [getEmailConfig] returns has the non-empty host of
    SMTP_HOST and the port [parseInt] reads from SMTP_PORT (587 when
    unset).  Its from-address is SMTP_FROM whenever that resolves, even
    to the empty string; only when SMTP_FROM is absent is it the
    non-empty SMTP_USER. *)
Theorem getEmailConfig_fields w c :
  getEmailConfig w = Ok c ->
  getEnv w "SMTP_HOST" = Some (smtp_host c) /\ smtp_host c <> ""
  /\ smtp_port c = parseInt (nullish (getEnv w "SMTP_PORT") "587")
  /\ smtp_user c = getEnv w "SMTP_USER"
  /\ smtp_pass c = getEnv w "SMTP_PASS"
  /\ match getEnv w "SMTP_FROM" with
     | Some f => smtp_from c = f
     | None => smtp_user c = Some (smtp_from c) /\ smtp_from c <> ""
     end.
Proof.
  unfold getEmailConfig, bindO.
  destruct (getRequiredEnv w "SMTP_HOST") as [host|] eqn:Hh; [|discriminate].
  apply getRequiredEnv_ok in Hh as [Hh Hne].
  destruct (getEnv w "SMTP_FROM") as [f|].
  - intros [= <-]. simpl. repeat split; auto.
  - destruct (getRequiredEnv w "SMTP_USER") as [user|] eqn:Hu; [|discriminate].
    apply getRequiredEnv_ok in Hu as [Hu Hune].
    intros [= <-]. simpl. repeat split; auto.
Qed.

Lemma getEmailConfig_fields_witness :
  smtp_host {| smtp_host := "smtp.biz.com"; smtp_port := Num 587;
               smtp_from := "shared@biz.com";
               smtp_user := Some "shared@biz.com";
               smtp_pass := Some "secret" |} <> "".
Proof.
  refine (proj1 (proj2 (getEmailConfig_fields (world coo_dev ∅ (Some "dev"))
           {| smtp_host := "smtp.biz.com"; smtp_port := Num 587;
              smtp_from := "shared@biz.com";
              smtp_user := Some "shared@biz.com";
              smtp_pass := Some "secret" |} _))).
  vm_compute. reflexivity.
Defined.

(** [getImapConfig] returns only with non-empty host, user and password,
    those of IMAP_HOST, IMAP_USER and IMAP_PASS; otherwise it throws for
    the first of the three, in this order, that is absent or empty. *)
Theorem getImapConfig_required w :
  match getImapConfig w with
  | Ok c =>
      getEnv w "IMAP_HOST" = Some (imap_host c) /\ imap_host c <> ""
      /\ getEnv w "IMAP_USER" = Some (imap_user c) /\ imap_user c <> ""
      /\ getEnv w "IMAP_PASS" = Some (imap_pass c) /\ imap_pass c <> ""
      /\ imap_port c = parseInt (nullish (getEnv w "IMAP_PORT") "993")
  | Throw m =>
      exists before key after,
        ["IMAP_HOST"; "IMAP_USER"; "IMAP_PASS"] = (before ++ key :: after)%list
        /\ m = "Missing required config: " +:+ key +:+ agent_suffix w
        /\ truthyO (getEnv w key) = false
        /\ Forall (fun k => truthyO (getEnv w k) = true) before
  end.
Proof.
  assert (Hreq : forall key,
             match getRequiredEnv w key with
             | Ok v => getEnv w key = Some v /\ v <> ""
                       /\ truthyO (getEnv w key) = true
             | Throw m => m = "Missing required config: " +:+ key
                              +:+ agent_suffix w
                          /\ truthyO (getEnv w key) = false
             end).
  { intros key. destruct (getRequiredEnv w key) as [v|m] eqn:E.
    - apply getRequiredEnv_ok in E as [Hv Hne]. rewrite Hv. simpl.
      repeat split; auto. apply truthy_true, Hne.
    - apply getRequiredEnv_throw in E as [[Hn|Hn] ->]; rewrite Hn; auto. }
  unfold getImapConfig, bindO.
  pose proof (Hreq "IMAP_HOST") as H1.
  destruct (getRequiredEnv w "IMAP_HOST") as [host|m1].
  - pose proof (Hreq "IMAP_USER") as H2.
    destruct (getRequiredEnv w "IMAP_USER") as [user|m2].
    + pose proof (Hreq "IMAP_PASS") as H3.
      destruct (getRequiredEnv w "IMAP_PASS") as [pass|m3].
      * simpl. intuition.
      * exists ["IMAP_HOST"; "IMAP_USER"], "IMAP_PASS", [].
        destruct H3 as [-> H3]. repeat split; auto.
        repeat constructor; intuition.
    + exists ["IMAP_HOST"], "IMAP_USER", ["IMAP_PASS"].
      destruct H2 as [-> H2]. repeat split; auto.
      repeat constructor; intuition.
  - exists [], "IMAP_HOST", ["IMAP_USER"; "IMAP_PASS"].
    destruct H1 as [-> H1]. repeat split; auto.
Qed.

End ConfigMore.

(** ** Reading numbers *)

Section ParseIntFacts.

Local Arguments String.append !s1 s2 : simpl nomatch.

Lemma trimStart_digit c d r :
  digit c = Some d -> trimStart (String c r) = String c r.
Proof.
  destruct c as [[|] [|] [|] [|] [|] [|] [|] [|]]; try discriminate;
    intros _; destruct r as [|c2 [|c3 r3]]; reflexivity.
Qed.

Lemma trimStart_minus r : trimStart (String "-" r) = String "-" r.
Proof. destruct r as [|c2 [|c3 r3]]; reflexivity. Qed.

Lemma digits_stop v t : no_leading_digit t -> digits (Some v) t = Some v.
Proof. destruct t as [|c t]; simpl; [reflexivity|]. intros ->. reflexivity. Qed.

Lemma digits_uint_acc d p t :
  no_leading_digit t ->
  digits (Some (Z.pos p)) (NilEmpty.string_of_uint d +:+ t)
  = Some (Z.pos (Pos.of_uint_acc d p)).
Proof.
  intros Ht. revert p.
  induction d as [|d IH|d IH|d IH|d IH|d IH|d IH|d IH|d IH|d IH|d IH];
    intros p; simpl; [apply digits_stop, Ht|..];
    rewrite <- IH; do 2 f_equal;
    match goal with
    | |- context [Z.of_nat (nat_of_ascii ?c)] =>
        let v := eval vm_compute in (Z.of_nat (nat_of_ascii c)) in
        change (Z.of_nat (nat_of_ascii c)) with v
    end; lia.
Qed.

Lemma digits_uint d t :
  no_leading_digit t ->
  digits (Some 0%Z) (NilEmpty.string_of_uint d +:+ t)
  = Some (Z.of_N (Pos.of_uint d)).
Proof.
  intros Ht.
  induction d as [|d IH|d IH|d IH|d IH|d IH|d IH|d IH|d IH|d IH|d IH];
    simpl; try exact IH; try (apply digits_stop, Ht);
    exact (digits_uint_acc d _ t Ht).
Qed.

Lemma uint_string_head d :
  d <> Decimal.Nil ->
  exists c r v, NilEmpty.string_of_uint d = String c r /\ digit c = Some v.
Proof.
  destruct d; [congruence| |  | | | | | | | |]; intros _;
    simpl; do 3 eexists; (split; [reflexivity|reflexivity]).
Qed.

Lemma parseInt_unsigned d t :
  d <> Decimal.Nil -> no_leading_digit t ->
  parseInt (NilEmpty.string_of_uint d +:+ t) = Num (Z.of_N (Pos.of_uint d)).
Proof.
  intros Hd Ht. pose proof (digits_uint d t Ht) as Hdig.
  destruct (uint_string_head d Hd) as (c & r & v & Hs & Hc).
  rewrite Hs in *. unfold parseInt. simpl String.append in *.
  rewrite (trimStart_digit c v _ Hc).
  assert (Hsign : (let '(sign, body) :=
                     match String c (r +:+ t) with
                     | String "-" r0 => ((-1)%Z, r0)
                     | String "+" r0 => (1%Z, r0)
                     | _ => (1%Z, String c (r +:+ t))
                     end in
                   match digits None body with
                   | Some z => Num (sign * z)
                   | None => NaN
                   end)
                  = match digits None (String c (r +:+ t)) with
                    | Some z => Num (1 * z)
                    | None => NaN
                    end).
  { destruct c as [[|] [|] [|] [|] [|] [|] [|] [|]]; try discriminate Hc;
      reflexivity. }
  rewrite Hsign.
  assert (Hnone : digits None (String c (r +:+ t))
                  = digits (Some 0%Z) (String c (r +:+ t))).
  { simpl. rewrite Hc. reflexivity. }
  rewrite Hnone, Hdig. f_equal. lia.
Qed.

Lemma parseInt_decimal z t :
  no_leading_digit t -> parseInt (showZ z +:+ t) = Num z.
Proof.
  intros Ht. unfold showZ. destruct z as [|p|p]; simpl Z.to_int.
  - change (parseInt (NilEmpty.string_of_uint (Decimal.D0 Decimal.Nil) +:+ t)
            = Num 0).
    rewrite parseInt_unsigned by (congruence || assumption). reflexivity.
  - unfold NilZero.string_of_int, NilZero.string_of_uint.
    pose proof (DecimalPos.Unsigned.to_uint_nonnil p) as Hn.
    assert (Hs : match Pos.to_uint p with
                 | Decimal.Nil => "0"
                 | _ => NilEmpty.string_of_uint (Pos.to_uint p)
                 end = NilEmpty.string_of_uint (Pos.to_uint p)).
    { destruct (Pos.to_uint p); congruence. }
    rewrite Hs, parseInt_unsigned by assumption.
    rewrite DecimalPos.Unsigned.of_to. reflexivity.
  - unfold NilZero.string_of_int, NilZero.string_of_uint.
    pose proof (DecimalPos.Unsigned.to_uint_nonnil p) as Hn.
    assert (Hs : match Pos.to_uint p with
                 | Decimal.Nil => "0"
                 | _ => NilEmpty.string_of_uint (Pos.to_uint p)
                 end = NilEmpty.string_of_uint (Pos.to_uint p)).
    { destruct (Pos.to_uint p); congruence. }
    rewrite Hs. pose proof (digits_uint (Pos.to_uint p) t Ht) as Hdig.
    destruct (uint_string_head _ Hn) as (c & r & v & Hc & Hv).
    rewrite Hc in *. unfold parseInt. simpl String.append in *.
    rewrite trimStart_minus.
    assert (Hnone : digits None (String c (r +:+ t))
                    = digits (Some 0%Z) (String c (r +:+ t))).
    { simpl. rewrite Hv. reflexivity. }
    rewrite Hnone, Hdig, DecimalPos.Unsigned.of_to. reflexivity.
Qed.

Lemma append_empty s : s +:+ "" = s.
Proof. induction s as [|c s IH]; simpl; [reflexivity|]. rewrite IH. reflexivity. Qed.

(** [parseInt] reads back the decimal rendering of every integer, and
    stops at the first character that is not a digit: text after the
    number is ignored. *)
Theorem parseInt_showZ z :
  parseInt (showZ z) = Num z
  /\ forall t, no_leading_digit t -> parseInt (showZ z +:+ t) = Num z.
Proof.
  split.
  - rewrite <- (append_empty (showZ z)). apply parseInt_decimal. exact I.
  - intros t. apply parseInt_decimal.
Qed.

Lemma parseInt_showZ_witness : parseInt (showZ 8080 +:+ "abc") = Num 8080.
Proof. apply (proj2 (parseInt_showZ 8080) "abc"). reflexivity. Defined.

(** With no identity bound, an MCP_PORT that starts with the decimal
    rendering of a port from 1 to 65535 gives that port, whatever
    non-digit text follows it. *)
Theorem getServerConfig_reads_port w p t :
  storage w = None ->
  processEnv w !! "MCP_PORT" = Some (showZ p +:+ t) ->
  no_leading_digit t ->
  (1 <= p <= 65535)%Z ->
  exists c, getServerConfig w = Ok c /\ srv_port c = p.
Proof.
  intros Hs He Ht Hp.
  assert (Hget : getEnv w "MCP_PORT" = Some (showZ p +:+ t)).
  { unfold getEnv, getCurrentAgentId, env_lookup. rewrite Hs, He.
    assert (Hne : showZ p +:+ t <> "").
    { intros Heq. pose proof (parseInt_decimal p t Ht) as Hp'.
      rewrite Heq in Hp'. discriminate Hp'. }
    rewrite (proj2 (truthy_true _) Hne). reflexivity. }
  unfold getServerConfig. rewrite Hget. simpl nullish.
  rewrite (parseInt_decimal p t Ht). simpl.
  destruct (Z.ltb_spec p 1); [lia|].
  destruct (Z.ltb_spec 65535 p); [lia|]. simpl.
  eexists. split; reflexivity.
Qed.

Lemma getServerConfig_reads_port_witness :
  exists c,
    getServerConfig (world no_agents {[ "MCP_PORT" := "8080abc" ]} None) = Ok c
    /\ srv_port c = 8080%Z.
Proof.
  apply (getServerConfig_reads_port
           (world no_agents {[ "MCP_PORT" := "8080abc" ]} None) 8080 "abc").
  - reflexivity.
  - vm_compute. reflexivity.
  - reflexivity.
  - lia.
Defined.

End ParseIntFacts.

(** ** More on authentication *)

Section AuthMore.

Implicit Types (w : World) (k : string).

Lemma getServerConfig_apiKey w c :
  getServerConfig w = Ok c -> srv_apiKey c = getEnv w "MCP_API_KEY".
Proof.
  unfold getServerConfig.
  destruct (isNaN _ || num_lt _ 1 || num_gt _ 65535); [discriminate|].
  destruct (parseInt _); [discriminate|]. intros [= <-]. reflexivity.
Qed.

Lemma authenticate_next_cases w providedKey agentId :
  authenticate w providedKey = Ok (Next agentId) ->
  (hasAgents w = false /\ agentId = None
   /\ truthyO (getEnv w "MCP_API_KEY") = false)
  \/ (hasAgents w = true
      /\ exists k id a,
           providedKey = HString k /\ agentId = Some id /\ id <> ""
           /\ In (id, a) (agents (agentsConfig w)) /\ apiKey a = k)
  \/ (hasAgents w = false /\ agentId = None
      /\ exists k,
           providedKey = HString k /\ k <> ""
           /\ getEnv w "MCP_API_KEY" = Some k).
Proof.
  unfold authenticate, bindO.
  destruct (getServerConfig w) as [config|] eqn:Hc; [|discriminate].
  rewrite (getServerConfig_apiKey w config Hc).
  destruct (hasAgents w) eqn:Hm; simpl.
  - destruct providedKey as [|k|l]; try discriminate.
    destruct (resolveAgentByApiKey w k) as [id|] eqn:Hr; [|discriminate].
    destruct (truthy id) eqn:Hid; [|discriminate].
    intros [= <-]. right. left. split; [reflexivity|].
    destruct (resolve_in_member _ _ _ Hr) as (a & Hin & Hk).
    exists k, id, a. repeat split; auto. apply truthy_true, Hid.
  - destruct (truthyO (getEnv w "MCP_API_KEY")) eqn:Ht; simpl.
    + destruct providedKey as [|k|l]; try discriminate.
      destruct (getEnv w "MCP_API_KEY") as [s|]; [|discriminate]. simpl in *.
      rewrite <- negb_andb. fold (safe_equal k s).
      destruct (safe_equal k s) eqn:E; [|discriminate].
      apply safe_equal_eq in E. subst s.
      intros [= <-]. right. right. repeat split.
      exists k. repeat split. apply truthy_true, Ht.
    + intros [= <-]. left. auto.
Qed.

(** A request passes [authenticate] in three ways only: nothing is
    configured (no agents, no non-empty MCP_API_KEY), and no identity is
    attached; or agents are configured and the header is one string equal
    to the stored key of an agent of the file, whose non-empty identifier
    is attached; or no agents are configured and the header is one
    string equal to MCP_API_KEY.  With agents configured MCP_API_KEY
    opens nothing. *)
Theorem authenticate_admits w providedKey agentId :
  authenticate w providedKey = Ok (Next agentId) ->
  (hasAgents w = false /\ agentId = None
   /\ truthyO (getEnv w "MCP_API_KEY") = false)
  \/ (hasAgents w = true
      /\ exists k id a,
           providedKey = HString k /\ agentId = Some id /\ id <> ""
           /\ In (id, a) (agents (agentsConfig w)) /\ apiKey a = k)
  \/ (hasAgents w = false /\ agentId = None
      /\ exists k,
           providedKey = HString k /\ k <> ""
           /\ getEnv w "MCP_API_KEY" = Some k).
Proof. apply authenticate_next_cases. Qed.

Lemma authenticate_admits_witness :
  (hasAgents (world coo_dev {[ "MCP_API_KEY" := "key-dev-456" ]} None) = false
   /\ Some "dev" = None
   /\ truthyO (getEnv (world coo_dev {[ "MCP_API_KEY" := "key-dev-456" ]} None)
                 "MCP_API_KEY") = false)
  \/ (hasAgents (world coo_dev {[ "MCP_API_KEY" := "key-dev-456" ]} None) = true
      /\ exists k id a,
           HString "key-dev-456" = HString k /\ Some "dev" = Some id
           /\ id <> ""
           /\ In (id, a)
                (agents (agentsConfig
                           (world coo_dev {[ "MCP_API_KEY" := "key-dev-456" ]}
                              None)))
           /\ apiKey a = k)
  \/ (hasAgents (world coo_dev {[ "MCP_API_KEY" := "key-dev-456" ]} None) = false
      /\ Some "dev" = None
      /\ exists k,
           HString "key-dev-456" = HString k /\ k <> ""
           /\ getEnv (world coo_dev {[ "MCP_API_KEY" := "key-dev-456" ]} None)
                "MCP_API_KEY" = Some k).
Proof.
  apply (authenticate_admits
           (world coo_dev {[ "MCP_API_KEY" := "key-dev-456" ]} None)
           (HString "key-dev-456") (Some "dev")).
  vm_compute. reflexivity.
Defined.

Lemma authenticate_reject_uniform w providedKey code message :
  authenticate w providedKey = Ok (Respond401 code message) ->
  code = (-32001)%Z /\ message = AUTH_ERROR.
Proof.
  unfold authenticate, bindO, reject.
  destruct (getServerConfig w) as [config|]; [|discriminate].
  destruct (negb (hasAgents w) && negb (truthyO (srv_apiKey config)));
    [discriminate|].
  destruct providedKey as [|k|l]; try (intros [= <- <-]; auto).
  destruct (hasAgents w).
  - destruct (resolveAgentByApiKey w k) as [id|]; [destruct (truthy id)|];
      try discriminate; intros [= <- <-]; auto.
  - destruct (_ || _); [intros [= <- <-]; auto|discriminate].
Qed.

(** A request the /mcp route turns down is answered 401 with code -32001
    and the one fixed message, whatever was wrong with its key, and the
    answer is the same for every handler: the handler has no part in
    it. *)
Theorem post_mcp_rejection_uniform {R} w providedKey
    (handleRequest : World -> outcome R) status code message :
  post_mcp w providedKey handleRequest = Ok (Unauthorized status code message) ->
  status = 401%Z /\ code = (-32001)%Z
  /\ message = "Unauthorized: Invalid or missing API key"
  /\ forall R' (handleRequest' : World -> outcome R'),
       post_mcp w providedKey handleRequest'
       = Ok (Unauthorized 401 (-32001)
               "Unauthorized: Invalid or missing API key").
Proof.
  unfold post_mcp, bindO.
  destruct (authenticate w providedKey) as [[agentId|c m]|] eqn:Ha;
    [|intros [= <- <- <-]|discriminate].
  - destruct (if truthyO agentId then _ else _); discriminate.
  - destruct (authenticate_reject_uniform _ _ _ _ Ha) as [-> ->].
    repeat split; reflexivity.
Qed.

Lemma post_mcp_rejection_uniform_witness :
  post_mcp (world coo_dev ∅ None) (HString "wrong-key")
    (fun _ : World => Ok tt)
  = Ok (Unauthorized 401 (-32001) "Unauthorized: Invalid or missing API key").
Proof.
  apply (post_mcp_rejection_uniform (R := unit) (world coo_dev ∅ None)
           (HString "wrong-key") (fun _ : World => Throw "unused")
           401 (-32001) "Unauthorized: Invalid or missing API key").
  vm_compute. reflexivity.
Defined.

(** A request the /mcp route hands to the handler runs with the same
    credential file and environment.  With agents configured it always
    runs under an identity, the non-empty identifier of an agent whose
    stored key is the key presented; with none configured the ambient
    identity is left as it was. *)
Theorem post_mcp_handled_identity {R} w providedKey
    (handleRequest : World -> outcome R) r :
  post_mcp w providedKey handleRequest = Ok (Handled r) ->
  exists w',
    handleRequest w' = Ok r
    /\ agentsConfig w' = agentsConfig w /\ processEnv w' = processEnv w
    /\ (if hasAgents w then
          exists k id a,
            providedKey = HString k /\ storage w' = Some id /\ id <> ""
            /\ In (id, a) (agents (agentsConfig w)) /\ apiKey a = k
        else w' = w).
Proof.
  unfold post_mcp, bindO.
  destruct (authenticate w providedKey) as [[agentId|c m]|] eqn:Ha;
    [|discriminate|discriminate].
  destruct (authenticate_next_cases w providedKey agentId Ha)
    as [(Hm & -> & _)|[(Hm & k & id & a & -> & -> & Hid & Hin & Hk)
                      |(Hm & -> & _)]];
    rewrite Hm; simpl.
  - destruct (handleRequest w) eqn:Hh; [|discriminate].
    intros [= <-]. exists w. auto.
  - rewrite (proj2 (truthy_true id) Hid). unfold runWithAgent.
    destruct (handleRequest _) eqn:Hh; [|discriminate].
    intros [= <-]. eexists. split; [exact Hh|]. simpl.
    repeat split. exists k, id, a. auto.
  - destruct (handleRequest w) eqn:Hh; [|discriminate].
    intros [= <-]. exists w. auto.
Qed.

Lemma post_mcp_handled_identity_witness :
  exists w',
    (fun w : World => Ok (getCurrentAgentId w)) w' = Ok (Some "coo")
    /\ agentsConfig w' = agentsConfig (world coo_dev ∅ None)
    /\ processEnv w' = processEnv (world coo_dev ∅ None)
    /\ (if hasAgents (world coo_dev ∅ None) then
          exists k id a,
            HString "key-coo-123" = HString k /\ storage w' = Some id
            /\ id <> ""
            /\ In (id, a) (agents (agentsConfig (world coo_dev ∅ None)))
            /\ apiKey a = k
        else w' = world coo_dev ∅ None).
Proof.
  apply (post_mcp_handled_identity (world coo_dev ∅ None)
           (HString "key-coo-123")
           (fun w : World => Ok (getCurrentAgentId w)) (Some "coo")).
  vm_compute. reflexivity.
Defined.

End AuthMore.

(** ** More on the gate_email tool *)

Section GateMore.

Variable getMessage : ImapConfig -> string -> Z -> outcome EmailFull.
Variable fetch : Request -> outcome Response.

Implicit Types (w : World) (uid : Z) (mailbox : option string)
  (read_body : option bool) (email : EmailFull).

Local Abbreviation gate := (gate_email getMessage fetch).

Lemma ok_range resp : ok resp = true <-> (200 <= status resp <= 299)%Z.
Proof.
  unfold ok. rewrite andb_true_iff, !Z.leb_le. tauto.
Qed.

(** For a fetched message the [logged] flag handed back is true exactly
    when a COMMS_TOKEN is configured and the audit sink answered the
    POST with a status from 200 to 299. *)
Theorem gate_email_logged_iff w uid mailbox read_body ic email :
  getImapConfig w = Ok ic ->
  getMessage ic (orElse mailbox "INBOX") uid = Ok email ->
  exists t d,
    gate w uid mailbox read_body = (t, Ok d)
    /\ (prop_lookup "logged" d = Some (JBool true) <->
        truthyO (getEnv w "COMMS_TOKEN") = true
        /\ exists resp,
             fetch (audit_request
                      (nullish (getEnv w "COMMS_URL") "http://127.0.0.1:9754")
                      (nullish (getEnv w "COMMS_TOKEN") "")
                      (logLines uid (orElse mailbox "INBOX")
                         (nullish (getCurrentAgentId w) "unknown") email))
             = Ok resp
             /\ (200 <= status resp <= 299)%Z).
Proof.
  intros Hic Hm.
  pose proof (deliver_audit_cases fetch
                (nullish (getEnv w "COMMS_URL") "http://127.0.0.1:9754")
                (getEnv w "COMMS_TOKEN")
                (logLines uid (orElse mailbox "INBOX")
                   (nullish (getCurrentAgentId w) "unknown") email)) as Hd.
  simpl in Hd.
  destruct (deliver_audit fetch _ _ _) as [t [logged|e]] eqn:Hrun.
  2: { exfalso. destruct (truthyO _); [|discriminate].
       destruct (fetch _) as [resp|]; [|discriminate].
       destruct (ok resp); discriminate. }
  exists (Console ("gate_email uid=" +:+ showZ uid +:+ " mailbox="
                   +:+ orElse mailbox "INBOX")
          :: ImapGetMessage ic (orElse mailbox "INBOX") uid (Ok email) :: t),
         (responseData email logged read_body).
  split.
  - exact (gate_email_fetched getMessage fetch w uid mailbox read_body ic
             email Hic Hm _ _ Hrun).
  - assert (Hl : prop_lookup "logged" (responseData email logged read_body)
                 = Some (JBool logged))
      by apply (responseData_keys email logged read_body).
    rewrite Hl.
    destruct (truthyO (getEnv w "COMMS_TOKEN")).
    + destruct (fetch _) as [resp|e] eqn:Hf.
      * destruct (ok resp) eqn:Hok; injection Hd as _ ->.
        -- split; [|reflexivity]. intros _. split; [reflexivity|].
           exists resp. split; [reflexivity|]. apply ok_range, Hok.
        -- split; [discriminate|]. intros (_ & resp' & [= <-] & Hr).
           apply ok_range in Hr. congruence.
      * injection Hd as _ ->. split; [discriminate|].
        intros (_ & resp' & [=] & _).
    + injection Hd as _ ->. split; [discriminate|]. intros [[=] _].
Qed.

(** Go through the events of an explicit trace; the ones of another kind
    are discarded, the matching one is opened. *)
Ltac event_cases :=
  let H := fresh "H" in
  intros * H; simpl in H;
  repeat match type of H with
         | _ \/ _ => destruct H as [H|H]; [try discriminate H|]
         | False => destruct H
         end;
  try (injection H as <- <- <- <-); try (injection H as <- <-).

(** The only calls gate_email makes to the outside are one
    [imap.getMessage], for the requested uid in the requested mailbox
    (INBOX by default) under the resolved IMAP settings, and, after a
    successful fetch and with a COMMS_TOKEN, one POST of the audit record
    of that message to the email-log channel.  Without a token, or when
    the settings or the fetch fail, nothing is sent to the sink. *)
Theorem gate_email_outside_calls w uid mailbox read_body :
  let trace := fst (gate w uid mailbox read_body) in
  (forall c mb u r,
      In (ImapGetMessage c mb u r) trace ->
      getImapConfig w = Ok c /\ mb = orElse mailbox "INBOX" /\ u = uid
      /\ r = getMessage c mb u)
  /\ (forall req res,
        In (Fetch req res) trace ->
        truthyO (getEnv w "COMMS_TOKEN") = true
        /\ res = fetch req
        /\ exists ic email,
             getImapConfig w = Ok ic
             /\ getMessage ic (orElse mailbox "INBOX") uid = Ok email
             /\ req = audit_request
                        (nullish (getEnv w "COMMS_URL") "http://127.0.0.1:9754")
                        (nullish (getEnv w "COMMS_TOKEN") "")
                        (logLines uid (orElse mailbox "INBOX")
                           (nullish (getCurrentAgentId w) "unknown") email))
  /\ (length (List.filter is_fetch trace) <= 1)%nat.
Proof.
  unfold gate_email, await_getMessage, lift, try_catch, bind, log, ret.
  destruct (getImapConfig w) as [ic|msg] eqn:Hic; simpl.
  2: { split; [|split]; [event_cases ..|simpl; lia]. }
  destruct (getMessage ic (orElse mailbox "INBOX") uid) as [email|msg] eqn:Hm.
  2: { simpl. split; [|split]; [event_cases ..|simpl; lia].
       rewrite Hm. auto. }
  rewrite (deliver_audit_cases fetch). simpl.
  destruct (truthyO (getEnv w "COMMS_TOKEN")) eqn:Ht.
  - destruct (fetch _) as [resp|e] eqn:Hf; [destruct (ok resp)|]; simpl;
      (split; [|split]; [event_cases ..|simpl; lia]);
      try (rewrite Hm; auto); rewrite Hf; repeat split; eauto.
  - simpl. split; [|split]; [event_cases ..|simpl; lia].
    rewrite Hm. auto.
Qed.

End GateMore.

Lemma gate_email_logged_iff_witness :
  exists t d,
    gate_email imap_ok (sink 204) gate_world 7 None None = (t, Ok d)
    /\ (prop_lookup "logged" d = Some (JBool true) <->
        truthyO (getEnv gate_world "COMMS_TOKEN") = true
        /\ exists resp,
             sink 204
               (audit_request
                  (nullish (getEnv gate_world "COMMS_URL")
                     "http://127.0.0.1:9754")
                  (nullish (getEnv gate_world "COMMS_TOKEN") "")
                  (logLines 7 (orElse None "INBOX")
                     (nullish (getCurrentAgentId gate_world) "unknown")
                     sample_email))
             = Ok resp
             /\ (200 <= status resp <= 299)%Z).
Proof.
  apply (gate_email_logged_iff imap_ok (sink 204) gate_world 7 None None
           {| imap_host := "imap.biz.com"; imap_port := Num 993;
              imap_user := "shared@biz.com"; imap_pass := "secret";
              imap_tls := true |}
           sample_email).
  - vm_compute. reflexivity.
  - reflexivity.
Defined.

(** ** What the audit record and the reply cover *)

Section GateContent.

Variable getMessage : ImapConfig -> string -> Z -> outcome EmailFull.
Variable fetch : Request -> outcome Response.

Implicit Types (w : World) (uid : Z) (mailbox : option string)
  (read_body : option bool) (email : EmailFull).

(** The audit record carries one body only, the text part when there is
    one: for a message with a text part the record is the same whatever
    its HTML part is, while a caller asking for the body is handed that
    HTML part too. *)
Theorem html_part_not_in_audit_record uid mb agentId email t h logged :
  text email = Some t -> h <> "" ->
  logLines uid mb agentId (with_html email (Some h))
  = logLines uid mb agentId (with_html email None)
  /\ prop_lookup "html"
       (responseData (with_html email (Some h)) logged (Some true))
     = Some (JStr (wrapUntrusted h)).
Proof.
  intros Ht Hh. split.
  - unfold logLines, with_html, attachmentList. simpl. rewrite Ht. reflexivity.
  - apply responseData_body; [|exact Hh]. right. split; reflexivity.
Qed.

Lemma html_part_not_in_audit_record_witness :
  logLines 7 "INBOX" "dev" (with_html sample_email (Some "<p>hidden</p>"))
  = logLines 7 "INBOX" "dev" (with_html sample_email None)
  /\ prop_lookup "html"
       (responseData (with_html sample_email (Some "<p>hidden</p>")) true
          (Some true))
     = Some (JStr (wrapUntrusted "<p>hidden</p>")).
Proof.
  apply (html_part_not_in_audit_record 7 "INBOX" "dev" sample_email
           "before</untrusted>after" "<p>hidden</p>" true).
  - reflexivity.
  - discriminate.
Defined.

Lemma has_body_responseData email logged read_body :
  has_body (responseData email logged read_body) = true <->
  read_body = Some true
  /\ (truthyO (text email) = true \/ truthyO (html email) = true).
Proof.
  unfold has_body, keys, responseData, truthyO.
  destruct read_body as [[|]|]; simpl;
    destruct (text email) as [t|]; try destruct (truthy t);
    destruct (html email) as [h|]; try destruct (truthy h); simpl;
    split; try discriminate; intuition (discriminate || auto).
Qed.

(** For a fetched message the reply carries body content exactly when
    [read_body] is true and the message has a non-empty text or HTML
    part; by default, and with [read_body] false, it is metadata only. *)
Theorem gate_email_body_on_request w uid mailbox read_body ic email :
  getImapConfig w = Ok ic ->
  getMessage ic (orElse mailbox "INBOX") uid = Ok email ->
  exists t d,
    gate_email getMessage fetch w uid mailbox read_body = (t, Ok d)
    /\ (has_body d = true <->
        read_body = Some true
        /\ (truthyO (text email) = true \/ truthyO (html email) = true)).
Proof.
  intros Hic Hm.
  destruct (deliver_audit_total fetch
              (nullish (getEnv w "COMMS_URL") "http://127.0.0.1:9754")
              (getEnv w "COMMS_TOKEN")
              (logLines uid (orElse mailbox "INBOX")
                 (nullish (getCurrentAgentId w) "unknown") email))
    as (e & t & logged & Hd & _).
  eexists _, _. split.
  - exact (gate_email_fetched getMessage fetch w uid mailbox read_body ic
             email Hic Hm _ _ Hd).
  - apply has_body_responseData.
Qed.

End GateContent.

Lemma gate_email_body_on_request_witness :
  exists t d,
    gate_email imap_ok (sink 200) gate_world 7 None None = (t, Ok d)
    /\ (has_body d = true <->
        None = Some true
        /\ (truthyO (text sample_email) = true
            \/ truthyO (html sample_email) = true)).
Proof.
  apply (gate_email_body_on_request imap_ok (sink 200) gate_world 7 None None
           {| imap_host := "imap.biz.com"; imap_port := Num 993;
              imap_user := "shared@biz.com"; imap_pass := "secret";
              imap_tls := true |}
           sample_email).
  - vm_compute. reflexivity.
  - reflexivity.
Defined.

(** ** More on the sanitizer *)

Section SanitizerMore.

Implicit Types (alts : list string) (p s : string).

Lemma occurs_ci_cons p c s :
  occurs_ci p (String c s) = false ->
  starts_ci p (String c s) = false /\ occurs_ci p s = false.
Proof. simpl. intros H. apply orb_false_iff in H. exact H. Qed.

Lemma match_at_none_of alts s :
  (forall p, In p alts -> starts_ci p s = false) -> match_at alts s = None.
Proof.
  induction alts as [|q alts IH]; simpl; [reflexivity|].
  intros H. rewrite (H q) by auto. apply IH. intros p Hp. apply H. auto.
Qed.

Lemma replaceAll_clean alts s :
  (forall p, In p alts -> occurs_ci p s = false) -> replaceAll alts s = s.
Proof.
  induction s as [|c s IH]; intros H; [reflexivity|].
  rewrite replaceAll_copy.
  - rewrite IH; [reflexivity|].
    intros p Hp. exact (proj2 (occurs_ci_cons p c s (H p Hp))).
  - apply match_at_none_of. intros p Hp.
    exact (proj1 (occurs_ci_cons p c s (H p Hp))).
Qed.

(** A text in which none of the four markers occurs comes out of
    [stripUntrusted] unchanged. *)
Theorem stripUntrusted_clean s :
  (forall p, In p boundary_markers -> occurs_ci p s = false) ->
  stripUntrusted s = s.
Proof.
  intros H. rewrite stripUntrusted_neutralize. apply replaceAll_clean, H.
Qed.

Lemma stripUntrusted_clean_witness :
  stripUntrusted "Hello <b>world</b> [untrusted]"
  = "Hello <b>world</b> [untrusted]".
Proof.
  apply (stripUntrusted_clean "Hello <b>world</b> [untrusted]").
  intros p [<-|[<-|[<-|[<-|[]]]]]; reflexivity.
Defined.

(** Sanitizing twice is sanitizing once. *)
Theorem stripUntrusted_idempotent s :
  stripUntrusted (stripUntrusted s) = stripUntrusted s.
Proof.
  rewrite (stripUntrusted_neutralize s).
  rewrite stripUntrusted_neutralize.
  apply replaceAll_clean. intros p Hp. apply neutralize_leaves_none, Hp.
Qed.

End SanitizerMore.

(** ** The SMTP transport options *)

Section EmailFacts.

Local Arguments String.append !s1 s2 : simpl nomatch.

Lemma until_gt_split r :
  free_of gt (until_gt r) = true
  /\ exists post,
       r = until_gt r +:+ post /\ (post = "" \/ exists q, post = String gt q).
Proof.
  unfold free_of. induction r as [|c r [IH1 (post & IH2 & IH3)]]; simpl.
  - split; [reflexivity|]. exists "". auto.
  - destruct (Ascii.eqb_spec c ">") as [->|Hc]; simpl.
    + split; [reflexivity|]. exists (String gt r). split; eauto.
    + split.
      * rewrite IH1. apply Ascii.eqb_neq in Hc. unfold gt. rewrite Hc.
        reflexivity.
      * exists post. split; [|exact IH3]. rewrite <- IH2. reflexivity.
Qed.

(** The EHLO name taken from the from-address, when there is one, is not
    empty, has no [>] in it, and stands in the address right after an
    [@] and up to the next [>] or the end. *)
Theorem ehloDomain_sound from d :
  ehloDomain from = Some d ->
  d <> "" /\ free_of gt d = true
  /\ exists pre post,
       from = pre +:+ String at_sign (d +:+ post)
       /\ (post = "" \/ exists q, post = String gt q).
Proof.
  induction from as [|c r IH]; simpl; [discriminate|].
  assert (Hrec : ehloDomain r = Some d ->
                 d <> "" /\ free_of gt d = true
                 /\ exists pre post,
                      String c r = pre +:+ String at_sign (d +:+ post)
                      /\ (post = "" \/ exists q, post = String gt q)).
  { intros H. destruct (IH H) as (H1 & H2 & pre & post & -> & H4).
    repeat split; auto. exists (String c pre), post. auto. }
  destruct (Ascii.eqb_spec c "@") as [->|Hc]; [|exact Hrec].
  destruct r as [|c2 r2]; [discriminate|].
  destruct (Ascii.eqb_spec c2 ">") as [->|Hc2]; [exact Hrec|].
  intros [= <-].
  destruct (until_gt_split (String c2 r2)) as (Hf & post & Hs & Hp).
  split; [|split; [exact Hf|]].
  - simpl. apply Ascii.eqb_neq in Hc2. rewrite Hc2. discriminate.
  - exists "", post. simpl. split; [|exact Hp]. f_equal. exact Hs.
Qed.

Lemma ehloDomain_sound_witness :
  "biz.com" <> "" /\ free_of gt "biz.com" = true
  /\ exists pre post,
       "Ops <ops@biz.com>" = pre +:+ String at_sign ("biz.com" +:+ post)
       /\ (post = "" \/ exists q, post = String gt q).
Proof.
  apply (ehloDomain_sound "Ops <ops@biz.com>" "biz.com"). reflexivity.
Defined.

Lemma until_gt_exact d rest :
  free_of gt d = true ->
  (rest = "" \/ exists q, rest = String gt q) ->
  until_gt (d +:+ rest) = d.
Proof.
  unfold free_of. intros Hd Hr. induction d as [|c d IH]; simpl.
  - destruct Hr as [->|[q ->]]; reflexivity.
  - simpl in Hd. apply andb_true_iff in Hd as [Hc Hd].
    apply negb_true_iff in Hc. unfold gt in Hc. rewrite Hc, (IH Hd).
    reflexivity.
Qed.

(** For a from-address that is a bare address or a display name with
    the address in angle brackets (no [@] before the one of the address,
    a non-empty domain without [>], then nothing or a [>]), the EHLO
    name is exactly the domain. *)
Theorem ehloDomain_of_address pre dom rest :
  free_of at_sign pre = true ->
  dom <> "" -> free_of gt dom = true ->
  (rest = "" \/ exists q, rest = String gt q) ->
  ehloDomain (pre +:+ String at_sign (dom +:+ rest)) = Some dom.
Proof.
  unfold free_of at 1. intros Hpre Hdom Hfree Hrest.
  induction pre as [|c pre IH]; simpl.
  - destruct dom as [|c2 dom]; [congruence|]. simpl.
    unfold free_of in Hfree. simpl in Hfree.
    apply andb_true_iff in Hfree as [Hc2 Hfree].
    apply negb_true_iff in Hc2. unfold gt in Hc2. rewrite Hc2.
    do 2 f_equal. apply until_gt_exact; assumption.
  - simpl in Hpre. apply andb_true_iff in Hpre as [Hc Hpre].
    apply negb_true_iff in Hc. unfold at_sign in Hc. rewrite Hc.
    exact (IH Hpre).
Qed.

Lemma ehloDomain_of_address_witness :
  ehloDomain ("Ops <ops" +:+ String at_sign ("biz.com" +:+ ">"))
  = Some "biz.com".
Proof.
  apply (ehloDomain_of_address "Ops <ops" "biz.com" ">").
  - reflexivity.
  - discriminate.
  - reflexivity.
  - right. exists "". reflexivity.
Defined.

(** The transport logs in exactly when both a non-empty user and a
    non-empty password are configured, and then with these two; with
    one of them missing it sends no credentials at all. *)
Theorem createTransport_auth config u p :
  opt_auth (createTransport config) = Some (u, p) <->
  smtp_user config = Some u /\ smtp_pass config = Some p
  /\ u <> "" /\ p <> "".
Proof.
  unfold createTransport, truthyO. simpl.
  destruct (smtp_user config) as [u'|]; simpl;
    [|split; [discriminate|intros (H & _); discriminate H]].
  destruct (smtp_pass config) as [p'|]; simpl;
    [|rewrite andb_false_r;
      split; [discriminate|intros (_ & H & _); discriminate H]].
  destruct (truthy u') eqn:Hu; destruct (truthy p') eqn:Hp; simpl.
  - apply truthy_true in Hu, Hp. split.
    + intros [= <- <-]. auto.
    + intros ([= <-] & [= <-] & _). reflexivity.
  - apply negb_false_iff, String.eqb_eq in Hp. subst.
    split; [discriminate|]. intros (_ & [= <-] & _ & H). congruence.
  - apply negb_false_iff, String.eqb_eq in Hu. subst.
    split; [discriminate|]. intros ([= <-] & _ & H & _). congruence.
  - apply negb_false_iff, String.eqb_eq in Hu. subst.
    split; [discriminate|]. intros ([= <-] & _ & H & _). congruence.
Qed.

End EmailFacts.

(** ** Listing, searching and the Sent folder *)

Section RangeFacts.

Import QArith Qminmax.
Local Open Scope Z_scope.

Lemma Qmax_inject_Z (a b : Z) :
  Qmax (inject_Z a) (inject_Z b) = inject_Z (Z.max a b).
Proof.
  unfold Qmax, GenericMinMax.gmax, Qcompare, inject_Z. simpl.
  rewrite !Z.mul_1_r. destruct (Z.compare_spec a b); f_equal; lia.
Qed.

(** For a mailbox with at least one message and whole numbers for the
    offset (not negative) and the limit (at least 1), [listMessages]
    fetches a range of whole sequence numbers inside the mailbox, of at
    most [limit] messages, ending [offset] messages before the newest
    one.  An offset at or beyond the number of messages does not give an
    empty listing: the range is then 1:1, the oldest message.  A limit
    that is not a whole number is not rounded: with limit one half and
    offset 0 the range starts half a message after its end. *)
Theorem listMessages_range_bounds total limit offset :
  (1 <= total)%Z -> (0 <= offset)%Z -> (1 <= limit)%Z ->
  (exists (qs qe : Q) (start end_ : Z),
      listMessages_range total (inject_Z limit) (inject_Z offset)
      = Some (qs, qe)
      /\ (qs == inject_Z start)%Q /\ (qe == inject_Z end_)%Q
      /\ (1 <= start <= end_)%Z /\ (end_ <= total)%Z
      /\ (end_ - start + 1 <= limit)%Z
      /\ (offset < total ->
          end_ = (total - offset)%Z
          /\ (start = 1%Z \/ (end_ - start + 1)%Z = limit))
      /\ (total <= offset -> start = 1%Z /\ end_ = 1%Z))
  /\ (exists qs qe : Q,
        listMessages_range total (1 # 2) 0 = Some (qs, qe)
        /\ (qe == inject_Z total)%Q
        /\ (qs == inject_Z total + (1 # 2))%Q
        /\ (qe < qs)%Q).
Proof.
  intros Ht Ho Hl. unfold listMessages_range.
  destruct (Z.eqb_spec total 0); [lia|]. split.
  - assert (He : (Qmax 1 (inject_Z total - inject_Z offset)
                  == inject_Z (Z.max 1 (total - offset)))%Q).
    { rewrite <- Qmax_inject_Z. apply Q.max_compat; [reflexivity|].
      unfold Qminus. rewrite <- inject_Z_opp, <- inject_Z_plus. reflexivity. }
    set (qe := Qmax 1 (inject_Z total - inject_Z offset)) in *.
    assert (Hs : (Qmax 1 (qe - inject_Z limit + 1)
                  == inject_Z (Z.max 1 (Z.max 1 (total - offset) - limit + 1)))%Q).
    { rewrite <- Qmax_inject_Z. apply Q.max_compat; [reflexivity|].
      rewrite He. change 1%Q with (inject_Z 1). unfold Qminus.
      rewrite <- inject_Z_opp, <- !inject_Z_plus. reflexivity. }
    assert (Hle : Qle_bool 1 qe = true).
    { apply Qle_bool_iff. rewrite He. change 1%Q with (inject_Z 1).
      rewrite <- Zle_Qle. lia. }
    rewrite Hle. simpl.
    eexists _, _, _, _. split; [reflexivity|].
    split; [exact Hs|]. split; [exact He|]. lia.
  - assert (H1 : (1 <= inject_Z total - 0)%Q).
    { unfold Qminus. rewrite Qplus_0_r. change 1%Q with (inject_Z 1).
      rewrite <- Zle_Qle. exact Ht. }
    assert (He : (Qmax 1 (inject_Z total - 0) == inject_Z total)%Q).
    { rewrite (Q.max_r _ _ H1). unfold Qminus. apply Qplus_0_r. }
    set (qe := Qmax 1 (inject_Z total - 0)) in *.
    assert (H2 : (1 <= qe - (1 # 2) + 1)%Q).
    { rewrite He. apply Qle_trans with (inject_Z total); [|].
      - change 1%Q with (inject_Z 1). rewrite <- Zle_Qle. exact Ht.
      - rewrite <- (Qplus_0_r (inject_Z total)) at 1.
        unfold Qminus. rewrite <- Qplus_assoc. apply Qplus_le_r.
        discriminate. }
    assert (Hs : (Qmax 1 (qe - (1 # 2) + 1) == inject_Z total + (1 # 2))%Q).
    { rewrite (Q.max_r _ _ H2), He. ring. }
    assert (Hle : Qle_bool 1 qe = true).
    { apply Qle_bool_iff. rewrite He. change 1%Q with (inject_Z 1).
      rewrite <- Zle_Qle. exact Ht. }
    rewrite Hle. simpl.
    eexists _, _. split; [reflexivity|].
    split; [exact He|]. split; [exact Hs|].
    rewrite Hs, He. rewrite <- (Qplus_0_r (inject_Z total)) at 1.
    apply Qplus_lt_r. reflexivity.
Qed.

Lemma listMessages_range_bounds_witness :
  (exists (qs qe : Q) (start end_ : Z),
      listMessages_range 3 (inject_Z 20) (inject_Z 7) = Some (qs, qe)
      /\ (qs == inject_Z start)%Q /\ (qe == inject_Z end_)%Q
      /\ (1 <= start <= end_)%Z /\ (end_ <= 3)%Z
      /\ (end_ - start + 1 <= 20)%Z
      /\ (7 < 3 ->
          end_ = (3 - 7)%Z /\ (start = 1%Z \/ (end_ - start + 1)%Z = 20%Z))
      /\ (3 <= 7 -> start = 1%Z /\ end_ = 1%Z))
  /\ (exists qs qe : Q,
        listMessages_range 3 (1 # 2) 0 = Some (qs, qe)
        /\ (qe == inject_Z 3)%Q
        /\ (qs == inject_Z 3 + (1 # 2))%Q
        /\ (qe < qs)%Q).
Proof. apply (listMessages_range_bounds 3 20 7); lia. Defined.

End RangeFacts.

Section ImapFacts.





(** The search query has an entry for a criterion only when that
    criterion is a non-empty string, and for [unseen] only when it is
    true: with every criterion absent, empty or false the query is the
    empty object. *)
Theorem search_query_empty criteria :
  search_query criteria = [] <->
  truthyO (sc_from criteria) = false /\ truthyO (sc_to criteria) = false
  /\ truthyO (sc_subject criteria) = false
  /\ truthyO (sc_since criteria) = false
  /\ truthyO (sc_before criteria) = false
  /\ nullish (sc_unseen criteria) false = false
  /\ truthyO (sc_text criteria) = false.
Proof.
  unfold search_query.
  destruct (truthyO (sc_from criteria)); [simpl; split; [discriminate|intuition discriminate]|].
  destruct (truthyO (sc_to criteria)); [simpl; split; [discriminate|intuition discriminate]|].
  destruct (truthyO (sc_subject criteria)); [simpl; split; [discriminate|intuition discriminate]|].
  destruct (truthyO (sc_since criteria)); [simpl; split; [discriminate|intuition discriminate]|].
  destruct (truthyO (sc_before criteria)); [simpl; split; [discriminate|intuition discriminate]|].
  destruct (nullish (sc_unseen criteria) false); [simpl; split; [discriminate|intuition discriminate]|].
  destruct (truthyO (sc_text criteria)); simpl; split;
    try discriminate; intuition discriminate.
Qed.

Lemma find_none_forall {A} (f : A -> bool) (l : list A) :
  List.find f l = None <-> Forall (fun x => f x = false) l.
Proof.
  induction l as [|x l IH]; simpl.
  - split; [constructor|reflexivity].
  - destruct (f x) eqn:E.
    + split; [discriminate|]. intros H. inversion H; subst. congruence.
    + rewrite IH. split; [constructor; assumption|].
      intros H. inversion H; subst. assumption.
Qed.

Lemma find_first {A} (f : A -> bool) (l : list A) x :
  List.find f l = Some x ->
  f x = true
  /\ exists pre post,
       l = (pre ++ x :: post)%list /\ Forall (fun y => f y = false) pre.
Proof.
  induction l as [|y l IH]; simpl; [discriminate|].
  destruct (f y) eqn:E.
  - intros [= <-]. split; [exact E|]. exists [], l. split; [reflexivity|constructor].
  - intros H. destruct (IH H) as (Hx & pre & post & -> & Hpre).
    split; [exact Hx|]. exists (y :: pre), post.
    split; [reflexivity|constructor; assumption].
Qed.

(** The mailbox [appendToSent] saves to is the first one the server
    lists with the special use \Sent, and only when no mailbox has that
    flag the first one whose name is "sent" in any letter case.  The
    message is appended to that mailbox's path with the flag \Seen, and
    the path is returned unless the append fails.  When there is no such
    mailbox nothing is appended and the result is [null]. *)
Theorem sentBox_choice mailboxes :
  match sentBox mailboxes with
  | Some mb =>
      (exists pre post,
          mailboxes = (pre ++ mb :: post)%list
          /\ ((is_special_sent mb = true
               /\ Forall (fun x => is_special_sent x = false) pre)
              \/ (Forall (fun x => is_special_sent x = false) mailboxes
                  /\ named_sent mb = true
                  /\ Forall (fun x => named_sent x = false) pre)))
      /\ forall append raw,
           appendToSent mailboxes append raw
           = match append (mb_path mb) raw [backslash +:+ "Seen"] with
             | Ok _ => Ok (Some (mb_path mb))
             | Throw m => Throw m
             end
  | None =>
      Forall (fun x => is_special_sent x = false /\ named_sent x = false)
        mailboxes
      /\ forall append raw, appendToSent mailboxes append raw = Ok None
  end.
Proof.
  unfold appendToSent. destruct (sentBox mailboxes) as [mb|] eqn:E.
  - split.
    + unfold sentBox in E.
      destruct (List.find is_special_sent mailboxes) as [mb'|] eqn:E1.
      * injection E as ->.
        destruct (find_first _ _ _ E1) as (Hs & pre & post & Hl & Hpre).
        exists pre, post. split; [exact Hl|]. left. auto.
      * destruct (find_first _ _ _ E) as (Hs & pre & post & Hl & Hpre).
        exists pre, post. split; [exact Hl|]. right.
        split; [apply find_none_forall, E1|]. auto.
    + intros append raw. unfold bindO.
      destruct (append (mb_path mb) raw [backslash +:+ "Seen"]); reflexivity.
  - split; [|reflexivity]. unfold sentBox in E.
    destruct (List.find is_special_sent mailboxes) eqn:E1; [discriminate|].
    apply find_none_forall in E1. apply find_none_forall in E.
    rewrite Forall_forall in *. intros x Hx. split; auto.
Qed.

(** A mailbox named "Sent" listed before the one flagged \Sent does not
    take its place. *)
Example sentBox_prefers_flag :
  sentBox [ {| mb_path := "Sent"; mb_name := "Sent"; mb_specialUse := None |};
            {| mb_path := "[Gmail]/Sent Mail"; mb_name := "Sent Mail";
               mb_specialUse := Some (backslash +:+ "Sent") |} ]
  = Some {| mb_path := "[Gmail]/Sent Mail"; mb_name := "Sent Mail";
            mb_specialUse := Some (backslash +:+ "Sent") |}.
Proof. reflexivity. Qed.

End ImapFacts.

(** ** The read_email and send_email tools *)

Section ToolFacts.

Variable getMessage : ImapConfig -> string -> Z -> outcome EmailFull.

(** read_email never throws and never contacts the audit sink.  It
    replies with the message exactly as [imap.getMessage] returned it,
    subject, message-id and unwrapped body included, or with the error of
    [getImapConfig] or of the fetch. *)
Theorem read_email_reply w uid mailbox :
  exists t r,
    read_email getMessage w uid mailbox = (t, Ok r)
    /\ Forall (fun e => is_fetch e = false) t
    /\ match r with
       | Result email =>
           exists ic, getImapConfig w = Ok ic
                      /\ getMessage ic (orElse mailbox "INBOX") uid = Ok email
       | Failed msg =>
           getImapConfig w = Throw msg
           \/ exists ic, getImapConfig w = Ok ic
                         /\ getMessage ic (orElse mailbox "INBOX") uid
                            = Throw msg
       end.
Proof.
  unfold read_email, await_getMessage, lift, try_catch, bind, log, ret.
  destruct (getImapConfig w) as [ic|msg] eqn:Hic; simpl.
  - destruct (getMessage ic (orElse mailbox "INBOX") uid) as [email|msg] eqn:Hm;
      simpl; eexists _, _; (split; [reflexivity|]);
      (split; [repeat constructor|]); eauto.
  - eexists _, _. split; [reflexivity|]. split; [repeat constructor|]. auto.
Qed.

Variable sendEmail : EmailConfig -> EmailMessage -> outcome EmailSendResult.
Variable buildRawMessage : EmailConfig -> EmailMessage -> outcome string.
Variable appendToSent : ImapConfig -> string -> outcome (option string).

Local Abbreviation send := (send_email sendEmail buildRawMessage appendToSent).
Local Abbreviation save := (save_to_sent buildRawMessage appendToSent).

(** Saving to the Sent folder never throws and sends nothing. *)
Lemma save_to_sent_total w config params :
  exists t,
    save w config params = (t, Ok tt)
    /\ Forall (fun e => is_send e = false) t.
Proof.
  unfold save_to_sent, mcatch, mbind, mlog, mret.
  destruct (getImapConfig w) as [ic|m]; simpl.
  - destruct (buildRawMessage config params) as [raw|m]; simpl.
    + destruct (appendToSent ic raw) as [folder|m]; simpl.
      * destruct (truthyO folder); simpl; eexists;
          (split; [reflexivity|repeat constructor]).
      * eexists. split; [reflexivity|repeat constructor].
    + eexists. split; [reflexivity|repeat constructor].
  - eexists. split; [reflexivity|repeat constructor].
Qed.

(** Once the mail settings resolve and [sendEmail] succeeds, send_email
    replies with the send result, whatever becomes of the copy for the
    Sent folder: missing IMAP settings, a failure to build the raw
    message, a failing or absent Sent mailbox change nothing in the
    reply, and the mail is sent once. *)
Theorem send_email_best_effort w params config result :
  getEmailConfig w = Ok config ->
  sendEmail config params = Ok result ->
  exists t,
    send w params = (t, Ok (Result result))
    /\ List.filter is_send t = [SendEmail config params (Ok result)].
Proof.
  intros Hc Hs.
  destruct (save_to_sent_total w config params) as (t & Ht & Hns).
  unfold send_email, mcatch, mbind, mlog, mret.
  rewrite Hc. simpl. rewrite Hs. simpl. rewrite Ht. simpl.
  eexists. split; [reflexivity|]. simpl. f_equal.
  rewrite app_nil_r.
  clear Ht. induction Hns as [|e t He Hns IH]; simpl; [reflexivity|].
  rewrite He. exact IH.
Qed.

(** send_email never throws.  It calls [sendEmail] only with the settings
    [getEmailConfig] returned, and replies with an error exactly when
    those settings do not resolve or [sendEmail] fails, with that error's
    message; when the settings do not resolve nothing is sent. *)
Theorem send_email_reply w params :
  exists t r,
    send w params = (t, Ok r)
    /\ (forall c m res, In (SendEmail c m res) t ->
                        getEmailConfig w = Ok c /\ m = params
                        /\ res = sendEmail c m)
    /\ match r with
       | Result result =>
           exists c, getEmailConfig w = Ok c
                     /\ sendEmail c params = Ok result
       | Failed msg =>
           (getEmailConfig w = Throw msg
            /\ Forall (fun e => is_send e = false) t)
           \/ exists c, getEmailConfig w = Ok c
                        /\ sendEmail c params = Throw msg
       end.
Proof.
  unfold send_email, mcatch, mbind, mlog, mret.
  destruct (getEmailConfig w) as [c|msg] eqn:Hc; simpl.
  - destruct (sendEmail c params) as [result|msg] eqn:Hs; simpl.
    + destruct (save_to_sent_total w c params) as (t & Ht & Hns).
      rewrite Ht. simpl. eexists _, _. split; [reflexivity|]. split; [|eauto].
      intros c' m res [H|[H|H]]; try discriminate H.
      * injection H as <- <- <-. auto.
      * rewrite app_nil_r in H. rewrite Forall_forall in Hns.
        apply list_elem_of_In in H. specialize (Hns _ H). discriminate Hns.
    + eexists _, _. split; [reflexivity|]. split; [|eauto].
      intros c' m res [H|[H|[H|[]]]]; try discriminate H.
      injection H as <- <- <-. auto.
  - eexists _, _. split; [reflexivity|]. split.
    + intros c' m res [H|[H|[]]]; discriminate H.
    + left. split; [reflexivity|repeat constructor].
Qed.

End ToolFacts.

Lemma send_email_best_effort_witness :
  exists t,
    send_email (fun _ _ => Ok sample_result) (fun _ _ => Throw "no stream")
      (fun _ _ => Ok None) (world coo_dev ∅ (Some "coo")) sample_message
    = (t, Ok (Result sample_result))
    /\ List.filter is_send t
       = [SendEmail
            {| smtp_host := "smtp.biz.com"; smtp_port := Num 587;
               smtp_from := "coo@biz.com";
               smtp_user := Some "shared@biz.com";
               smtp_pass := Some "secret" |}
            sample_message (Ok sample_result)].
Proof.
  apply (send_email_best_effort (fun _ _ => Ok sample_result)
           (fun _ _ => Throw "no stream") (fun _ _ => Ok None)
           (world coo_dev ∅ (Some "coo")) sample_message
           {| smtp_host := "smtp.biz.com"; smtp_port := Num 587;
              smtp_from := "coo@biz.com";
              smtp_user := Some "shared@biz.com";
              smtp_pass := Some "secret" |}
           sample_result).
  - vm_compute. reflexivity.
  - reflexivity.
Defined.
